(** * core_pipeline.py: baseline threshold, heatwave days, excess deaths,
      early warning benefits

    A shallow embedding of the four stages of [core_pipeline.py] and of the
    part of pandas, numpy and [os] they call.

    - A table cell is an int64 or a float64, as [read_csv] infers them for
      the numeric columns of a CSV file. int64 arithmetic wraps around;
      float64 arithmetic is IEEE 754 binary64 with rounding to nearest
      even ([SpecFloat] of the standard library, precision 53, exponent
      bound 1024). A column of a table holds cells of one kind; padding a
      column during an alignment turns an int64 column into float64.
      Columns of text are outside the model.
    - Every frame read from a CSV file carries the default RangeIndex, so
      index alignment is alignment by position, padding with NaN.
    - The file system is a finite map from paths to directory listings and
      a finite map from paths to the frames [read_csv] returns for them;
      a stage is a state-and-error computation over it.
    - A string is a sequence of characters, one [ascii] per code point of
      the Python [str]; names with code points above U+00FF are outside
      the model. *)

From Stdlib Require Import ZArith Ascii String.
From Stdlib Require Import Floats.SpecFloat.
From Stdlib Require Import Sorting.Sorted Sorting.Permutation.
From stdpp Require Import base list strings gmap numbers sorting.

(* ================================================================== *)
(** * Python strings *)
(* ================================================================== *)

(** Clamp a slice bound to [0, n], counting negative bounds from the end. *)
Definition py_bound (n : nat) (i : Z) : nat :=
  if (i <? 0)%Z then Z.to_nat (Z.max 0 (Z.of_nat n + i))
  else Nat.min n (Z.to_nat i).

(** [s[i:j]] *)
Definition py_slice (i j : Z) (s : string) : string :=
  let n := String.length s in
  let a := py_bound n i in
  let b := py_bound n j in
  String.substring a (b - a) s.

(** [s.split(sep)] for a one-character separator: never the empty list. *)
Fixpoint py_split (sep : ascii) (s : string) : list string :=
  match s with
  | EmptyString => [EmptyString]
  | String c s' =>
      if Ascii.eqb c sep then EmptyString :: py_split sep s'
      else match py_split sep s' with
           | w :: ws => String c w :: ws
           | [] => [String c EmptyString]
           end
  end.

(** [l[-1]] on the non-empty result of a split. *)
Definition py_last (l : list string) : string := List.last l EmptyString.

(** [s.endswith(suffix)] *)
Definition py_endswith (s suffix : string) : bool :=
  let n := String.length s in
  let k := String.length suffix in
  (k <=? n)%nat && String.eqb (String.substring (n - k) k s) suffix.

(** [os.path.join(a, b)] on POSIX paths. *)
Definition path_join (a b : string) : string :=
  if String.prefix "/" b then b
  else if String.eqb a "" then b
  else if py_endswith a "/" then a +:+ b
  else a +:+ "/" +:+ b.

(** The directory a path lies in: what precedes its last [/]. A path
    without [/] names a file of the current directory. *)
Fixpoint path_parent (p : string) : option string :=
  match p with
  | EmptyString => None
  | String c p' =>
      match path_parent p' with
      | Some d => Some (String c d)
      | None => if Ascii.eqb c "/" then Some EmptyString else None
      end
  end.

(** [year = fname[-8:-4]] in [count_heatwave_days]. *)
Definition fname_year (fname : string) : string := py_slice (-8) (-4) fname.

(** [year = col.split("_")[-1]] in [calculate_excess_deaths] and
    [calculate_early_warning_benefits]. *)
Definition col_year (col : string) : string := py_last (py_split "_" col).

(** The character [c] does not occur in [s]. *)
Fixpoint char_free (c : ascii) (s : string) : Prop :=
  match s with
  | EmptyString => True
  | String d s' => d ≠ c ∧ char_free c s'
  end.

(* ================================================================== *)
(** * Numbers: int64 and float64 *)
(* ================================================================== *)

(** A float64; [S754_nan] is NaN. *)
Abbreviation float64 := spec_float (only parsing).

Global Instance float64_eq_dec : EqDecision spec_float.
Proof. solve_decision. Defined.

Definition f64_add : float64 → float64 → float64 := SFadd 53 1024.
Definition f64_sub : float64 → float64 → float64 := SFsub 53 1024.
Definition f64_mul : float64 → float64 → float64 := SFmul 53 1024.
Definition f64_div : float64 → float64 → float64 := SFdiv 53 1024.

(** [x <= y] and [x < y]: [False] as soon as one side is NaN. *)
Definition f64_le (x y : float64) : bool := SFleb x y.
Definition f64_lt (x y : float64) : bool := SFltb x y.

Definition f64_isnan (x : float64) : bool :=
  match x with S754_nan => true | _ => false end.

(** The float64 nearest to an integer (ties to even): the conversion of an
    int64 and of a Python [int]. *)
Definition f64_of_int (z : Z) : float64 := binary_normalize 53 1024 z 0 false.

(** [int(np.floor(x))] for a finite [x]. *)
Definition f64_floor (x : float64) : Z :=
  match x with
  | S754_finite s m e => Z.shiftl (cond_Zopp s (Z.pos m)) e
  | _ => 0%Z
  end.

Definition f64_zero : float64 := S754_zero false.
Definition f64_half : float64 :=
  Eval vm_compute in f64_div (f64_of_int 1) (f64_of_int 2).
Definition f64_one : float64 := Eval vm_compute in f64_of_int 1.
Definition f64_100 : float64 := Eval vm_compute in f64_of_int 100.

(** Not below zero, or NaN. *)
Definition f64_nonneg (x : float64) : Prop :=
  match x with
  | S754_zero s | S754_infinity s | S754_finite s _ _ => s = false
  | S754_nan => True
  end.

(** The result of an int64 operation: the low 64 bits, read as signed. *)
Definition wrap64 (z : Z) : Z := ((z + 2 ^ 63) mod 2 ^ 64 - 2 ^ 63)%Z.

(** The order in which [np.sort] and [np.partition] arrange float64
    values: ascending, NaN last. Values that compare equal are
    interchangeable for numpy but for the sign of a zero; here the
    negative zero comes first. *)
Definition f64_key (x : float64) : Z * Z * Z * Z :=
  match x with
  | S754_infinity true => (-2, 0, 0, 0)
  | S754_finite true m e => (-1, - e, Z.neg m, 0)
  | S754_zero true => (0, 0, 0, 0)
  | S754_zero false => (0, 0, 0, 1)
  | S754_finite false m e => (1, e, Z.pos m, 0)
  | S754_infinity false => (2, 0, 0, 0)
  | S754_nan => (3, 0, 0, 0)
  end%Z.

Definition key_le (a b : Z * Z * Z * Z) : Prop :=
  let '(a1, a2, a3, a4) := a in
  let '(b1, b2, b3, b4) := b in
  (a1 < b1 ∨ (a1 = b1 ∧ (a2 < b2 ∨ (a2 = b2 ∧
     (a3 < b3 ∨ (a3 = b3 ∧ a4 ≤ b4))))))%Z.

Global Instance key_le_dec : RelDecision key_le.
Proof. intros [[[a1 a2] a3] a4] [[[b1 b2] b3] b4]. simpl. apply _. Defined.

Definition f64_order (x y : float64) : Prop := key_le (f64_key x) (f64_key y).

Global Instance f64_order_dec : RelDecision f64_order.
Proof. intros x y. unfold f64_order. apply _. Defined.

(* ================================================================== *)
(** * Cells, Series and DataFrames *)
(* ================================================================== *)

(** A numeric CSV field. NaN is a float64: an empty field, or a position
    an alignment had to fill. *)
Inductive cell : Type :=
  | I64 (z : Z)
  | F64 (x : float64).

Global Instance cell_eq_dec : EqDecision cell.
Proof. solve_decision. Defined.

Definition NaN : cell := F64 S754_nan.

(** The value of a cell as a float64: what numpy makes of an int64 that
    meets a float64. *)
Definition to_float (c : cell) : float64 :=
  match c with
  | I64 z => f64_of_int z
  | F64 x => x
  end.

(** [astype(float64)] on one cell. *)
Definition astype_float (c : cell) : cell := F64 (to_float c).

Definition is_int (c : cell) : bool :=
  match c with I64 _ => true | F64 _ => false end.

Definition as_int (c : cell) : option Z :=
  match c with I64 z => Some z | F64 _ => None end.

(** [isna] *)
Definition isna (c : cell) : bool :=
  match c with I64 _ => false | F64 x => f64_isnan x end.

(** [a * b]: int64 with int64 stays int64 and wraps around; anything else
    is computed in float64. *)
Definition cell_mul (a b : cell) : cell :=
  match a, b with
  | I64 x, I64 y => I64 (wrap64 (x * y))
  | _, _ => F64 (f64_mul (to_float a) (to_float b))
  end.

(** [a + b] *)
Definition cell_add (a b : cell) : cell :=
  match a, b with
  | I64 x, I64 y => I64 (wrap64 (x + y))
  | _, _ => F64 (f64_add (to_float a) (to_float b))
  end.

(** [a / b]: true division, always in float64. *)
Definition cell_div (a b : cell) : cell :=
  F64 (f64_div (to_float a) (to_float b)).

(** [a >= b]: exact between two int64, in float64 otherwise; any
    comparison with NaN is [False]. *)
Definition cell_ge (a b : cell) : bool :=
  match a, b with
  | I64 x, I64 y => (y <=? x)%Z
  | _, _ => f64_le (to_float b) (to_float a)
  end.

(** The values of a Series over the index [0, 1, ..., length - 1]. *)
Abbreviation Series := (list cell) (only parsing).

(** [s.reindex(range(n))]: truncate, or pad with NaN; a padded Series is
    float64. *)
Definition reindex (n : nat) (s : Series) : Series :=
  if (n <=? length s)%nat then take n s
  else map astype_float s ++ replicate (n - length s) NaN.

(** A binary operator between two Series: both are aligned on the union of
    their indexes first. *)
Definition series_op (f : cell → cell → cell) (a b : Series) : Series :=
  let n := Nat.max (length a) (length b) in
  zip_with f (reindex n a) (reindex n b).

(** A binary operator between a Series and a Python number. *)
Definition series_scalar (f : cell → cell → cell) (a : Series) (k : cell)
    : Series :=
  map (λ x, f x k) a.

(** A frame: the length of its RangeIndex and its labelled columns, in
    column order. *)
Record DataFrame : Type := mkDataFrame {
  df_index : nat;
  df_columns : list (string * Series)
}.

Definition labels (df : DataFrame) : list string := map fst (df_columns df).

(** Every column spans the index. *)
Definition frame_wf (df : DataFrame) : Prop :=
  Forall (λ c, length (snd c) = df_index df) (df_columns df).

Global Instance frame_wf_dec (df : DataFrame) : Decision (frame_wf df).
Proof. unfold frame_wf. apply _. Defined.

(** [pd.DataFrame()] *)
Definition empty_frame : DataFrame := mkDataFrame 0 [].

(** The columns carrying the label [k]. *)
Definition sel (cols : list (string * Series)) (k : string) : list Series :=
  map snd (filter (λ c, fst c = k) cols).

Definition select (df : DataFrame) (k : string) : list Series :=
  sel (df_columns df) k.

(** Row [i] of a frame, in column order. *)
Definition row (df : DataFrame) (i : nat) : list cell :=
  map (λ c, nth i (snd c) NaN) (df_columns df).

Inductive error : Type :=
  | OSError (path : string)
  | KeyError (key : string)
  | ValueError (msg : string).

(** The outcome of a computation that may raise. *)
Definition Res (A : Type) : Type := error + A.

Definition res_bind {A B} (r : Res A) (k : A → Res B) : Res B :=
  match r with
  | inl e => inl e
  | inr a => k a
  end.

(** [df[k]]: a missing label raises [KeyError]. [read_csv] never yields a
    repeated label; on a repeated label (which only a rename can produce)
    indexing selects a sub-frame, which is not a Series. *)
Definition getitem (df : DataFrame) (k : string) : Res Series :=
  match select df k with
  | [] => inl (KeyError k)
  | [s] => inr s
  | _ => inl (ValueError "not a Series")
  end.

(** [df.rename(columns={old: new})] *)
Definition rename (old new : string) (df : DataFrame) : DataFrame :=
  mkDataFrame (df_index df)
    (map (λ c, (if String.eqb (fst c) old then new else fst c, snd c))
         (df_columns df)).

(** [df.drop(columns=[k])]: a missing label raises [KeyError]. *)
Definition drop_column (df : DataFrame) (k : string) : Res DataFrame :=
  match select df k with
  | [] => inl (KeyError k)
  | _ => inr (mkDataFrame (df_index df)
                (filter (λ c, fst c ≠ k) (df_columns df)))
  end.

(** [df[k] = s]. A frame whose index is still empty adopts the index of a
    non-empty [s]; otherwise [s] is re-indexed to the frame. An existing
    label is overwritten in place, a new one is appended. *)
Definition setitem (df : DataFrame) (k : string) (s : Series) : DataFrame :=
  let n := if (df_index df =? 0)%nat && (0 <? length s)%nat
           then length s else df_index df in
  let old := map (λ c, (fst c, reindex n (snd c))) (df_columns df) in
  let s' := reindex n s in
  mkDataFrame n
    (if bool_decide (k ∈ labels df)
     then map (λ c, if String.eqb (fst c) k then (k, s') else c) old
     else old ++ [(k, s')]).

(** [pd.DataFrame({k1: v1, k2: v2, ...})] from Series: the index is the union
    of the indexes. A value that is a sub-frame (a label selected more than
    once) is rejected. *)
Definition frame_of_dict (d : list (string * list Series)) : Res DataFrame :=
  if forallb (λ e, (length (snd e) =? 1)%nat) d then
    let cols := map (λ e, (fst e, List.concat (snd e))) d in
    let n := foldr (λ c, Nat.max (length (snd c))) 0%nat cols in
    inr (mkDataFrame n (map (λ c, (fst c, reindex n (snd c))) cols))
  else inl (ValueError "Per-column arrays must each be 1-dimensional").

(** [pd.concat(dfs, axis=1)]: the frames side by side, on the union of
    their indexes. *)
Definition concat_axis1 (dfs : list DataFrame) : Res DataFrame :=
  match dfs with
  | [] => inl (ValueError "No objects to concatenate")
  | _ =>
      let n := foldr (λ df, Nat.max (df_index df)) 0%nat dfs in
      inr (mkDataFrame n
             (flat_map (λ df, map (λ c, (fst c, reindex n (snd c)))
                                  (df_columns df)) dfs))
  end.

(** ** Percentile, as numpy (1.22 and later) computes it for
       [method='linear'] *)

(** [arr[i]]: a negative index counts from the end. *)
Definition py_index {A} (arr : list A) (i : Z) (d : A) : A :=
  nth (Z.to_nat (if (i <? 0)%Z then Z.of_nat (length arr) + i else i)) arr d.

(** [_get_indexes]: the two neighbours of the virtual index among [n]
    values. At and beyond the last value, and for NaN, both are the last
    one ([-1]). *)
Definition get_indexes (n : nat) (virtual : float64) : Z * Z :=
  if f64_le (f64_of_int (Z.of_nat n - 1)) virtual || f64_isnan virtual
  then (-1, -1)%Z
  else if f64_lt virtual (f64_of_int 0) then (0, 0)%Z
  else (f64_floor virtual, f64_floor virtual + 1)%Z.

(** [_lerp(a, b, t)] on float64: [a + (b - a) * t], computed from [b] when
    [t >= 0.5]. *)
Definition lerp (a b t : float64) : float64 :=
  let diff_b_a := f64_sub b a in
  if f64_le f64_half t
  then f64_sub b (f64_mul diff_b_a (f64_sub f64_one t))
  else f64_add a (f64_mul diff_b_a t).

(** [_lerp(a, b, t)] on int64 values: [b - a] is an int64 subtraction, the
    rest is float64. *)
Definition lerp_int (a b : Z) (t : float64) : float64 :=
  let diff_b_a := f64_of_int (wrap64 (b - a)) in
  if f64_le f64_half t
  then f64_sub (f64_of_int b) (f64_mul diff_b_a (f64_sub f64_one t))
  else f64_add (f64_of_int a) (f64_mul diff_b_a t).

(** [np.percentile(xs, 100 * q)] for the values [xs] (not empty) of one
    row: the virtual index [(n - 1) * q] falls between two neighbouring
    values of the sorted row, which are interpolated by the distance of
    the virtual index from the first of them. *)
Definition linear_quantile {A} (R : relation A) `{!RelDecision R}
    (interp : A → A → float64 → float64) (d : A)
    (q : float64) (xs : list A) : float64 :=
  let n := length xs in
  let arr := merge_sort R xs in
  let virtual := f64_mul (f64_of_int (Z.of_nat n - 1)) q in
  let '(previous, next) := get_indexes n virtual in
  let gamma := f64_sub virtual (f64_of_int previous) in
  interp (py_index arr previous d) (py_index arr next d) gamma.

(** The frame holds int64 only: its transpose is an int64 array. *)
Definition frame_is_int (df : DataFrame) : bool :=
  match df_columns df with
  | [] => false
  | cols => forallb (λ c, forallb is_int (snd c)) cols
  end.

(** The quantile of one row of a float64 array: NaN cells are masked, and
    a row without any value yields NaN. *)
Definition row_quantile (q : float64) (r : list cell) : cell :=
  match filter (λ x, f64_isnan x = false) (map to_float r) with
  | [] => NaN
  | xs => F64 (linear_quantile f64_order lerp S754_nan q xs)
  end.

(** The quantile of one row of an int64 array. *)
Definition row_quantile_int (q : float64) (r : list cell) : cell :=
  F64 (linear_quantile Z.le lerp_int 0%Z q (omap as_int r)).

(** [df.quantile(q, axis=1)]: one value per row. pandas hands
    [q * 100.0] to [np.percentile], which divides it by 100 again. *)
Definition quantile_axis1 (q : float64) (df : DataFrame) : Series :=
  let q := f64_div (f64_mul q f64_100) f64_100 in
  map (λ i, if frame_is_int df then row_quantile_int q (row df i)
            else row_quantile q (row df i))
      (seq 0 (df_index df)).

(** ** Comparison against a Series, and row sums *)

(** [temps.ge(thr, axis=0)]: rows are aligned on the union of the two
    indexes; the result is a frame of booleans. *)
Definition ge_axis0 (temps : DataFrame) (thr : Series)
    : nat * list (string * list bool) :=
  let n := Nat.max (df_index temps) (length thr) in
  (n, map (λ c, (fst c, zip_with cell_ge (reindex n (snd c)) (reindex n thr)))
          (df_columns temps)).

(** [exceed.sum(axis=1)]: the number of [True] per row, an int64. The sum
    over a frame without columns is the float64 zero. *)
Definition sum_axis1 (exceed : nat * list (string * list bool)) : Series :=
  map (λ i, match snd exceed with
            | [] => F64 f64_zero
            | cols => I64 (foldr (λ c acc, (Z.b2z (nth i (snd c) false) + acc)%Z)
                                 0%Z cols)
            end)
      (seq 0 (fst exceed)).

(* ================================================================== *)
(** * The world a stage runs in *)
(* ================================================================== *)

(** The directories that exist, each with its listing (in the order
    [os.listdir] returns it) under every spelling of its path that a run
    uses; the frame [read_csv] returns for each CSV file; and the lines
    printed so far. Writing a file does not touch the listings. *)
Record World : Type := mkWorld {
  w_dirs : gmap string (list string);
  w_files : gmap string DataFrame;
  w_stdout : list string
}.

(** A stage: it may raise, and it leaves a world behind either way. *)
Definition M (A : Type) : Type := World → Res A * World.

Definition m_ret {A} (a : A) : M A := λ w, (inr a, w).

Definition m_bind {A B} (c : M A) (k : A → M B) : M B :=
  λ w, match c w with
       | (inl e, w') => (inl e, w')
       | (inr a, w') => k a w'
       end.

Definition lift {A} (r : Res A) : M A := λ w, (r, w).

Notation "'let!' x := c 'in' k" := (m_bind c (λ x, k))
  (at level 10, x name, c at level 100, k at level 200, only parsing).

(** [for x in l: body(x)] *)
Fixpoint for_each {A} (l : list A) (body : A → M unit) : M unit :=
  match l with
  | [] => m_ret tt
  | x :: l' => let! _ := body x in for_each l' body
  end.

(** [[f(x) for x in l]] *)
Fixpoint map_m {A B} (f : A → M B) (l : list A) : M (list B) :=
  match l with
  | [] => m_ret []
  | x :: l' => let! y := f x in let! ys := map_m f l' in m_ret (y :: ys)
  end.

(** A loop that only updates a local variable and may raise. *)
Fixpoint fold_res {A S} (step : S → A → Res S) (s : S) (l : list A) : Res S :=
  match l with
  | [] => inr s
  | x :: l' => res_bind (step s x) (λ s', fold_res step s' l')
  end.

Definition listdir (p : string) : M (list string) :=
  λ w, match w_dirs w !! p with
       | Some l => (inr l, w)
       | None => (inl (OSError p), w)
       end.

Definition read_csv (p : string) : M DataFrame :=
  λ w, match w_files w !! p with
       | Some df => (inr df, w)
       | None => (inl (OSError p), w)
       end.

(** The directory a file is to be written into exists. The current
    directory and the root always do. *)
Definition parent_exists (w : World) (p : string) : Res unit :=
  match path_parent p with
  | None => inr tt
  | Some d =>
      if String.eqb d "" then inr tt
      else match w_dirs w !! d with
           | Some _ => inr tt
           | None => inl (OSError d)
           end
  end.

(** [df.to_csv(p, index=False)]: pandas refuses to write into a directory
    that does not exist. *)
Definition to_csv (p : string) (df : DataFrame) : M unit :=
  λ w, match parent_exists w p with
       | inl e => (inl e, w)
       | inr _ =>
           (inr tt, mkWorld (w_dirs w) (<[p := df]> (w_files w)) (w_stdout w))
       end.

Definition print (line : string) : M unit :=
  λ w, (inr tt, mkWorld (w_dirs w) (w_files w) (w_stdout w ++ [line])).

(* ================================================================== *)
(** * Stage 1: baseline threshold *)
(* ================================================================== *)

(** The float64 that the literal [0.975] denotes: the one nearest to
    975/1000. *)
Definition q975 : float64 :=
  Eval vm_compute in f64_div (f64_of_int 975) (f64_of_int 1000).

(** The name of the Series [quantile(0.975, axis=1)] returns is the
    fraction itself; [to_csv] prints it as the header of the value column. *)
Definition quantile_name : string := "0.975".

(** What [s.to_csv(p, index=False)] leaves in the file for a Series: one
    column, headed by the name of the Series. *)
Definition series_frame (name : string) (s : Series) : DataFrame :=
  mkDataFrame (length s) [(name, s)].

Definition calculate_baseline_threshold (baseline_dir output_file : string)
    : M unit :=
  let! names := listdir baseline_dir in
  let files := map (path_join baseline_dir)
                   (filter (λ f, py_endswith f ".csv" = true) names) in
  let! dfs := map_m read_csv files in
  let! baseline_all := lift (concat_axis1 dfs) in
  let percent975 := quantile_axis1 q975 baseline_all in
  let! _ := to_csv output_file (series_frame quantile_name percent975) in
  print ("Baseline 97.5th percentile saved to " +:+ output_file).

(* ================================================================== *)
(** * Stage 2: heatwave days *)
(* ================================================================== *)

(** The body of the innermost loop, from the frame just read to [out]. *)
Definition heatwave_leaf (threshold data : DataFrame) : Res DataFrame :=
  let data := rename "Unnamed: 0" "FID" data in
  match select data "FID" with
  | [] => inl (KeyError "FID")
  | FID =>
      res_bind (drop_column data "FID") (λ temps,
      res_bind (getitem threshold "Percent975") (λ thr,
      let exceed := ge_axis0 temps thr in
      let counts := sum_axis1 exceed in
      frame_of_dict [("FID", FID); ("HeatwaveDays", [counts])]))
  end.

Definition count_heatwave_days (future_dir threshold_file output_dir : string)
    : M unit :=
  let! threshold := read_csv threshold_file in
  let! scenarios := listdir future_dir in
  let! _ := for_each scenarios (λ scenario,
    let scen_path := path_join future_dir scenario in
    let! models := listdir scen_path in
    for_each models (λ model,
      let model_path := path_join scen_path model in
      let! fnames := listdir model_path in
      for_each fnames (λ fname,
        let year := fname_year fname in
        let! data := read_csv (path_join model_path fname) in
        let! out := lift (heatwave_leaf threshold data) in
        let outname := path_join output_dir
          (scenario +:+ "_" +:+ model +:+ "_" +:+ year +:+ ".csv") in
        to_csv outname out))) in
  print ("Heatwave days results saved to " +:+ output_dir).

(* ================================================================== *)
(** * The shape of the two year loops *)
(* ================================================================== *)

(** Both year loops have this shape: a Series is computed from the column
    label, which may raise, and assigned under a name derived from it. *)
Definition assign_step (compute : string → Res Series) (name : string → string)
    (df : DataFrame) (c : string) : Res DataFrame :=
  res_bind (compute c) (λ s, inr (setitem df (name c) s)).

(** What such a loop maintains of its frame: an index of [n] rows spanned
    by every column, and pairwise distinct labels. *)
Definition loop_frame (n : nat) (df : DataFrame) : Prop :=
  df_index df = n ∧ frame_wf df ∧ NoDup (labels df).

(* ================================================================== *)
(** * Stage 3: excess deaths *)
(* ================================================================== *)

(** [ER[col] * D[f"Deaths-{year}"]]: the operands are looked up from left
    to right, then multiplied. *)
Definition excess_deaths_rhs (ER D : DataFrame) (col : string) : Res Series :=
  let year := col_year col in
  res_bind (getitem ER col) (λ er,
  res_bind (getitem D ("Deaths-" +:+ year)) (λ d,
  inr (series_op cell_mul er d))).

(** One iteration of [for col in ER.columns[1:]]. *)
Definition excess_deaths_step (ER D df_out : DataFrame) (col : string)
    : Res DataFrame :=
  let year := col_year col in
  res_bind (excess_deaths_rhs ER D col) (λ ed,
  inr (setitem df_out ("ED_" +:+ year) ed)).

Definition calculate_excess_deaths (er_file mortality_file output_file : string)
    : M unit :=
  let! ER := read_csv er_file in
  let! D := read_csv mortality_file in
  let! fid := lift (getitem ER "FID") in
  let df_out := setitem empty_frame "FID" fid in
  let! df_out := lift (fold_res (excess_deaths_step ER D) df_out
                               (tail (labels ER))) in
  let! _ := to_csv output_file df_out in
  print ("Excess deaths saved to " +:+ output_file).

(* ================================================================== *)
(** * Stage 4: early warning benefits *)
(* ================================================================== *)

(** The Python numbers [5], [0.0127] and [1e6]. *)
Definition rate65 : cell := I64 5.
Definition rate_u65 : cell :=
  Eval vm_compute in F64 (f64_div (f64_of_int 127) (f64_of_int 10000)).
Definition million : cell := Eval vm_compute in F64 (f64_of_int 1000000).

(** [(p65 * hw) * 5/1e6 + (pu65 * hw) * 0.0127/1e6], with Python's
    left-to-right grouping of [*] and [/]. *)
Definition benefit_series (p65 pu65 hw : Series) : Series :=
  series_op cell_add
    (series_scalar cell_div
       (series_scalar cell_mul (series_op cell_mul p65 hw) rate65) million)
    (series_scalar cell_div
       (series_scalar cell_mul (series_op cell_mul pu65 hw) rate_u65) million).

(** [benefit = ...]: the operands are looked up from left to right. *)
Definition benefit_rhs (df_hw df65 df_u65 : DataFrame) (col : string)
    : Res Series :=
  let year := col_year col in
  res_bind (getitem df65 ("Pop65-" +:+ year)) (λ p65,
  res_bind (getitem df_hw col) (λ hw,
  res_bind (getitem df_u65 ("PopU65-" +:+ year)) (λ pu65,
  inr (benefit_series p65 pu65 hw)))).

(** One iteration of [for col in df_hw.columns[1:]]. *)
Definition benefit_step (df_hw df65 df_u65 df_out : DataFrame) (col : string)
    : Res DataFrame :=
  let year := col_year col in
  res_bind (benefit_rhs df_hw df65 df_u65 col) (λ benefit,
  inr (setitem df_out ("Benefit_" +:+ year) benefit)).

Definition calculate_early_warning_benefits
    (heatwave_file pop65_file pop_u65_file output_file : string) : M unit :=
  let! df_hw := read_csv heatwave_file in
  let! df65 := read_csv pop65_file in
  let! df_u65 := read_csv pop_u65_file in
  let! fid := lift (getitem df_hw "FID") in
  let df_out := setitem empty_frame "FID" fid in
  let! df_out := lift (fold_res (benefit_step df_hw df65 df_u65) df_out
                               (tail (labels df_hw))) in
  let! _ := to_csv output_file df_out in
  print ("Early warning benefits saved to " +:+ output_file).

(* ================================================================== *)
(** * The reference quantile *)
(* ================================================================== *)

(** The point at the fraction [g] of the way from [a] to [b], where [gap]
    is the distance from [a] to [b]; it is measured from the nearer end. *)
Definition interpolate (a b gap g : float64) : float64 :=
  if f64_lt g f64_half then f64_add a (f64_mul gap g)
  else f64_sub b (f64_mul gap (f64_sub f64_one g)).

(** The quantile with linear interpolation, stated on the order statistics
    [s] of the sample [xs] (counted from 0), in float64. The position
    [h = (n - 1) * p] splits into a whole part [k] and a fraction, and the
    quantile lies at that fraction of the way from [s_k] to [s_(k+1)]. A
    position that is not before the last order statistic yields the
    interpolation of the last order statistic with itself, one step past
    the one before it.

    [val] is the float64 value of an element and [gap a b] the distance
    from [a] to [b]; [d] stands for an order statistic that does not
    exist. *)
Definition reference_quantile {A} (ascending : relation A)
    (val : A → float64) (gap : A → A → float64) (d : A)
    (p : float64) (xs : list A) (v : float64) : Prop :=
  ∃ s : list A,
    s ≡ₚ xs ∧ Sorted ascending s ∧
    let top := f64_of_int (Z.of_nat (length xs) - 1) in
    let h := f64_mul top p in
    if f64_lt h top
    then ∃ k : nat,
           f64_floor h = Z.of_nat k ∧
           v = interpolate (val (nth k s d)) (val (nth (k + 1) s d))
                 (gap (nth k s d) (nth (k + 1) s d))
                 (f64_sub h (f64_of_int (Z.of_nat k)))
    else v = interpolate (val (List.last s d)) (val (List.last s d))
               (gap (List.last s d) (List.last s d))
               (f64_sub h (f64_of_int (-1))).

(** Ascending float64 values, and the distance between two of them. *)
Definition f64_ascending (x y : float64) : Prop := f64_le x y = true.
Definition f64_gap (a b : float64) : float64 := f64_sub b a.

(** The distance between two int64 values is an int64. *)
Definition int_gap (a b : Z) : float64 := f64_of_int (wrap64 (b - a)).

(** The cells of row [i] of the tables side by side; a table that ends
    before row [i] has NaN there. *)
Definition wide_row (dfs : list DataFrame) (i : nat) : list cell :=
  flat_map (λ df, map (λ c, nth i (snd c) NaN) (df_columns df)) dfs.

(** The tables side by side make an int64 table of [n] rows: there is a
    column, every table has [n] rows, and every cell is an int64. *)
Definition int_table (dfs : list DataFrame) (n : nat) : bool :=
  negb (forallb (λ df, bool_decide (df_columns df = [])) dfs)
  && forallb (λ df, forallb (λ c, (df_index df =? n)%nat
                                  && forallb is_int (snd c))
                            (df_columns df)) dfs.

(** The values of a row of cells: all of them as int64, and those that
    are not NaN as float64. *)
Definition int_values (r : list cell) : list Z := omap as_int r.
Definition float_values (r : list cell) : list float64 :=
  filter (λ x, f64_isnan x = false) (map to_float r).

(** The files of a world hold well-formed tables. *)
Definition files_wf (w : World) : Prop :=
  map_Forall (λ _ df, frame_wf df) (w_files w).

Global Instance files_wf_dec (w : World) : Decision (files_wf w).
Proof. unfold files_wf. apply _. Defined.

(* ================================================================== *)
(** * The benefit of one row *)
(* ================================================================== *)

(** [Pop65 * HeatwaveDays * (5 / 1e6) + PopU65 * HeatwaveDays * (0.0127 / 1e6)]
    on the cells of one row: the two rates per person and day are formed
    first. *)
Definition benefit_formula (pop65 pop_u65 days : cell) : cell :=
  cell_add (cell_mul (cell_mul pop65 days) (cell_div rate65 million))
           (cell_mul (cell_mul pop_u65 days) (cell_div rate_u65 million)).

(** [(Pop65 * HeatwaveDays) * 5 / 1e6 + (PopU65 * HeatwaveDays) * 0.0127 / 1e6]
    on the cells of one row, evaluated from left to right: each product is
    scaled by its rate and then divided by a million. *)
Definition benefit_left_to_right (pop65 pop_u65 days : cell) : cell :=
  cell_add (cell_div (cell_mul (cell_mul pop65 days) rate65) million)
           (cell_div (cell_mul (cell_mul pop_u65 days) rate_u65) million).

(** The product of two cells of one row of two columns of [n] and [m]
    rows: when the heights differ the shorter column was padded, so both
    cells meet as float64. *)
Definition aligned_mul (n m : nat) (a b : cell) : cell :=
  if (n =? m)%nat then cell_mul a b
  else F64 (f64_mul (to_float a) (to_float b)).

(** The benefit of one row of a heatwave column of [nhw] rows and
    population columns of [n65] and [nu] rows. *)
Definition benefit_aligned (n65 nu nhw : nat) (pop65 pop_u65 days : cell)
    : cell :=
  cell_add (cell_div (cell_mul (aligned_mul n65 nhw pop65 days) rate65) million)
           (cell_div (cell_mul (aligned_mul nu nhw pop_u65 days) rate_u65)
                     million).

(* ================================================================== *)
(** * A heatwave day *)
(* ================================================================== *)

(** [a < b], as Python compares an int64 or float64 with another. *)
Definition cell_lt (a b : cell) : bool :=
  match a, b with
  | I64 x, I64 y => (x <? y)%Z
  | _, _ => f64_lt (to_float a) (to_float b)
  end.

(** The temperature columns of a leaf table: all but [FID], whether it
    carries that name already or still [Unnamed: 0]. *)
Definition temperature_columns (data : DataFrame) : list (string * Series) :=
  filter (λ c, fst c ≠ "FID" ∧ fst c ≠ "Unnamed: 0") (df_columns data).

(** A cell of a column of [mine] rows once it is aligned with a column of
    [other] rows: the shorter column is padded, which makes it float64. *)
Definition aligned (mine other : nat) (c : cell) : cell :=
  if (mine <? other)%nat then astype_float c else c.

(** The temperature [x] of a table of [rows] rows meets or exceeds the
    threshold [t] of a threshold column of [height] rows. *)
Definition exceeds (rows height : nat) (t x : cell) : Prop :=
  cell_ge (aligned rows height x) (aligned height rows t) = true.

Global Instance exceeds_dec rows height t x : Decision (exceeds rows height t x).
Proof. unfold exceeds. apply _. Defined.

(** The heatwave days of row [i]: the temperature columns whose cell of
    that row meets or exceeds the threshold of that row. *)
Definition heatwave_days (data : DataFrame) (thr : Series) (i : nat) : nat :=
  length (filter (λ c, exceeds (df_index data) (length thr)
                               (nth i thr NaN) (nth i (snd c) NaN))
                 (temperature_columns data)).

(** A count among [columns] columns, as [sum] returns it: an int64, but
    the float64 zero when there is no column to count in. *)
Definition count_cell (columns k : nat) : cell :=
  if (columns =? 0)%nat then F64 f64_zero else I64 (Z.of_nat k).

(* ================================================================== *)
(** * The traversal of stage 2 *)
(* ================================================================== *)

(** [outname] in [count_heatwave_days]. *)
Definition heatwave_outname (output_dir scenario model fname : string)
    : string :=
  path_join output_dir
    (scenario +:+ "_" +:+ model +:+ "_" +:+ fname_year fname +:+ ".csv").

(** [fname] is listed under [model], which is listed under [scenario],
    which is listed under [future_dir]. *)
Definition listed_leaf (dirs : gmap string (list string))
    (future_dir scenario model fname : string) : Prop :=
  ∃ scenarios models fnames,
    dirs !! future_dir = Some scenarios ∧ scenario ∈ scenarios ∧
    dirs !! path_join future_dir scenario = Some models ∧ model ∈ models ∧
    dirs !! path_join (path_join future_dir scenario) model = Some fnames ∧
    fname ∈ fnames.

(** A file either kept its content, or it is the output file of a listed
    leaf and holds what the loop body computed from some table. *)
Definition kept_or_output (dirs : gmap string (list string))
    (future_dir output_dir : string) (threshold : DataFrame)
    (w w' : World) (p : string) : Prop :=
  w_files w' !! p = w_files w !! p
  ∨ ∃ scenario model fname data out,
      listed_leaf dirs future_dir scenario model fname ∧
      p = heatwave_outname output_dir scenario model fname ∧
      heatwave_leaf threshold data = inr out ∧
      w_files w' !! p = Some out.

(** The relation every statement of the traversal respects, for listings
    [dirs] that stay as they are. *)
Definition traversal_step (dirs : gmap string (list string))
    (future_dir output_dir : string) (threshold : DataFrame)
    (w w' : World) : Prop :=
  w_dirs w = dirs →
  w_dirs w' = dirs
  ∧ ∀ p, kept_or_output dirs future_dir output_dir threshold w w' p.

(** A leaf of the traversal: scenario, model and file name. *)
Definition leaf : Type := string * string * string.

(** The listing of a directory, empty if there is none. *)
Definition listing (dirs : gmap string (list string)) (p : string)
    : list string :=
  default [] (dirs !! p).

(** The leaves in the order the three loops visit them. *)
Definition all_leaves (dirs : gmap string (list string)) (future_dir : string)
    : list leaf :=
  flat_map (λ scenario,
    flat_map (λ model,
      map (λ fname, (scenario, model, fname))
          (listing dirs (path_join (path_join future_dir scenario) model)))
      (listing dirs (path_join future_dir scenario)))
    (listing dirs future_dir).

(** The file a leaf is read from, and the file its counts are written to. *)
Definition leaf_path (future_dir : string) (l : leaf) : string :=
  path_join (path_join (path_join future_dir l.1.1) l.1.2) l.2.

Definition leaf_outname (output_dir : string) (l : leaf) : string :=
  heatwave_outname output_dir l.1.1 l.1.2 l.2.

(** The outputs keep clear of the leaves and of each other: no output
    replaces a leaf, and two leaves that share an output name are one
    file. *)
Definition outputs_apart (dirs : gmap string (list string))
    (future_dir output_dir : string) : Prop :=
  Forall (λ l1,
    Forall (λ l2,
      leaf_outname output_dir l1 ≠ leaf_path future_dir l2
      ∧ (leaf_outname output_dir l1 = leaf_outname output_dir l2 →
         leaf_path future_dir l1 = leaf_path future_dir l2))
      (all_leaves dirs future_dir))
    (all_leaves dirs future_dir).

Global Instance outputs_apart_dec dirs future_dir output_dir :
  Decision (outputs_apart dirs future_dir output_dir).
Proof. unfold outputs_apart. apply _. Defined.

(** What the traversal has done once it has visited the leaves [seen]:
    every other file is as it was in [w], and the output of each visited
    leaf holds what the loop body computes from the leaf as [w] has it. *)
Definition visited (future_dir output_dir : string) (threshold : DataFrame)
    (w : World) (seen : list leaf) (w' : World) : Prop :=
  w_dirs w' = w_dirs w
  ∧ (∀ p, (∀ l, l ∈ seen → p ≠ leaf_outname output_dir l) →
          w_files w' !! p = w_files w !! p)
  ∧ (∀ l, l ∈ seen →
       ∃ data out,
         w_files w !! leaf_path future_dir l = Some data ∧
         heatwave_leaf threshold data = inr out ∧
         w_files w' !! leaf_outname output_dir l = Some out).

(* ================================================================== *)
(** * Sample worlds *)
(* ================================================================== *)

(** An int64 cell, and the float64 cell of a whole number. *)
Definition num (z : Z) : cell := I64 z.
Definition flt (z : Z) : cell := F64 (f64_of_int z).

Definition ints (l : list Z) : Series := map num l.
Definition floats (l : list Z) : Series := map flt l.

(** A baseline directory with two CSV files of different heights and a
    file that is not a CSV. *)
Definition baseline_world : World :=
  mkWorld {[ "base" := ["a.csv"; "notes.txt"; "b.csv"] ]}
          {[ "base/a.csv" := mkDataFrame 2 [("d1", ints [1; 5]%Z);
                                            ("d2", [flt 2; NaN])];
             "base/b.csv" := mkDataFrame 1 [("d3", ints [3]%Z)] ]}
          [].

(** A baseline directory without any file. *)
Definition empty_dir_world : World :=
  mkWorld {[ "base" := [] ]} ∅ [].

(** The pipeline as the example usage chains it: stage 1 writes the
    threshold file that stage 2 reads; one scenario, one model, one year. *)
Definition leaf_2050 : DataFrame :=
  mkDataFrame 2 [("Unnamed: 0", ints [0; 1]%Z);
                 ("d1", ints [30; 24]%Z);
                 ("d2", ints [31; 25]%Z);
                 ("d3", ints [29; 26]%Z)].

Definition pipeline_world : World :=
  mkWorld {[ "data/baseline/" := ["b1.csv"];
             "data/future/" := ["rcp85"];
             "data/future/rcp85" := ["modelA"];
             "data/future/rcp85/modelA" := ["tas_2050.csv"];
             "outputs" := ["heatwave_days"];
             "outputs/heatwave_days" := [] ]}
          {[ "data/baseline/b1.csv" :=
               mkDataFrame 2 [("d1", ints [28; 22]%Z); ("d2", ints [30; 25]%Z)];
             "data/future/rcp85/modelA/tas_2050.csv" := leaf_2050 ]}
          [].

(** A threshold table with the column stage 2 asks for, as high as the
    leaf table, and one that is one row higher. *)
Definition threshold_2 : DataFrame :=
  mkDataFrame 2 [("Percent975", floats [30; 25]%Z)].

Definition threshold_3 : DataFrame :=
  mkDataFrame 3 [("Percent975", floats [30; 25; 27]%Z)].

Definition heatwave_world (threshold : DataFrame) : World :=
  mkWorld {[ "future" := ["rcp85"];
             "future/rcp85" := ["modelA"];
             "future/rcp85/modelA" := ["tas_2050.csv"];
             "out" := [] ]}
          {[ "thr.csv" := threshold;
             "future/rcp85/modelA/tas_2050.csv" := leaf_2050 ]}
          [].

(** Exposure-response and mortality for one year, and the same with two
    scenarios of that year and with a year the mortality table lacks. *)
Definition deaths_2050 : DataFrame :=
  mkDataFrame 2 [("FID", ints [1; 2]%Z); ("Deaths-2050", ints [10; 5]%Z)].

Definition er_2050 : DataFrame :=
  mkDataFrame 2 [("FID", ints [1; 2]%Z); ("ER_2050", ints [2; 0]%Z)].

Definition er_two_scenarios : DataFrame :=
  mkDataFrame 2 [("FID", ints [1; 2]%Z);
                 ("ER_rcp45_2050", ints [2; 0]%Z);
                 ("ER_rcp85_2050", ints [3; 1]%Z)].

Definition er_2060 : DataFrame :=
  mkDataFrame 2 [("FID", ints [1; 2]%Z); ("ER_2060", ints [2; 0]%Z)].

Definition deaths_world (ER : DataFrame) : World :=
  mkWorld ∅ {[ "er.csv" := ER; "deaths.csv" := deaths_2050 ]} [].

(** Heatwave days and the two population tables for one year, and the same
    with two scenarios of that year and with a year the tables lack. *)
Definition pop65_2050 : DataFrame :=
  mkDataFrame 1 [("FID", ints [1]%Z); ("Pop65-2050", ints [1000000]%Z)].

Definition pop_u65_2050 : DataFrame :=
  mkDataFrame 1 [("FID", ints [1]%Z); ("PopU65-2050", ints [1000000]%Z)].

Definition hw_2050 : DataFrame :=
  mkDataFrame 1 [("FID", ints [1]%Z); ("HeatwaveDays_2050", ints [10]%Z)].

Definition hw_two_scenarios : DataFrame :=
  mkDataFrame 1 [("FID", ints [1]%Z);
                 ("rcp45_2050", ints [10]%Z);
                 ("rcp85_2050", ints [20]%Z)].

Definition hw_2060 : DataFrame :=
  mkDataFrame 1 [("FID", ints [1]%Z); ("HeatwaveDays_2060", ints [10]%Z)].

Definition benefit_world (df_hw : DataFrame) : World :=
  mkWorld ∅ {[ "hw.csv" := df_hw;
               "pop65.csv" := pop65_2050;
               "popu65.csv" := pop_u65_2050 ]} [].

(* ================================================================== *)
(** * Further sample worlds *)
(* ================================================================== *)

(** The baseline directory of [baseline_world], listed in another order
    and without the file that is not a CSV. *)
Definition baseline_world_reordered : World :=
  mkWorld {[ "base" := ["b.csv"; "a.csv"] ]}
          (w_files baseline_world) [].

(** The same directory, with one more CSV name than there are files. *)
Definition baseline_world_dangling : World :=
  mkWorld {[ "base" := ["a.csv"; "gone.csv"; "b.csv"] ]}
          (w_files baseline_world) [].

(** Threshold tables for [leaf_2050]: one that stops after the first row,
    and one below [threshold_2] on every row. *)
Definition threshold_1 : DataFrame :=
  mkDataFrame 1 [("Percent975", floats [30]%Z)].

Definition threshold_low : DataFrame :=
  mkDataFrame 2 [("Percent975", floats [29; 24]%Z)].

(** Two years of exposure-response against a mortality table that stops
    after the first row. *)
Definition er_two_years : DataFrame :=
  mkDataFrame 2 [("FID", ints [1; 2]%Z);
                 ("ER_2050", ints [2; 0]%Z);
                 ("ER_2060", ints [3; 1]%Z)].

Definition deaths_short : DataFrame :=
  mkDataFrame 1 [("FID", ints [1]%Z);
                 ("Deaths-2050", ints [10]%Z);
                 ("Deaths-2060", ints [20]%Z)].

Definition deaths_short_world : World :=
  mkWorld ∅ {[ "er.csv" := er_two_years; "deaths.csv" := deaths_short ]} [].

(** Heatwave days for two grid cells against population tables of one. *)
Definition hw_two_cells : DataFrame :=
  mkDataFrame 2 [("FID", ints [1; 2]%Z);
                 ("HeatwaveDays_2050", ints [10; 4]%Z)].

(** An exposure-response table and a heatwave-days table without rows. *)
Definition er_no_rows : DataFrame :=
  mkDataFrame 0 [("FID", []); ("ER_2050", [])].

Definition hw_no_rows : DataFrame :=
  mkDataFrame 0 [("FID", []); ("HeatwaveDays_2050", [])].

(** Three heatwave days for one person of 65 or more. *)
Definition hw_three_days : DataFrame :=
  mkDataFrame 1 [("FID", ints [1]%Z); ("HeatwaveDays_2050", ints [3]%Z)].

Definition one_person_world : World :=
  mkWorld ∅ {[ "hw.csv" := hw_three_days;
               "pop65.csv" :=
                 mkDataFrame 1 [("FID", ints [1]%Z); ("Pop65-2050", ints [1]%Z)];
               "popu65.csv" :=
                 mkDataFrame 1 [("FID", ints [1]%Z); ("PopU65-2050", ints [0]%Z)] ]}
          [].

(** Two cells whose product leaves the range of int64. *)
Definition er_large : DataFrame :=
  mkDataFrame 1 [("FID", ints [1]%Z); ("ER_2050", ints [3037000500]%Z)].

Definition deaths_large : DataFrame :=
  mkDataFrame 1 [("FID", ints [1]%Z); ("Deaths-2050", ints [3037000500]%Z)].
(* ================================================================== *)
(** * Year extraction *)
(* ================================================================== *)

Section Strings.

Lemma substring_prefix (b c : string) :
  String.substring 0 (String.length b) (b +:+ c) = b.
Proof.
  induction b as [|x b IH]; simpl.
  - by destruct c.
  - by rewrite IH.
Qed.

Lemma substring_middle (a b c : string) :
  String.substring (String.length a) (String.length b) (a +:+ b +:+ c) = b.
Proof.
  induction a as [|x a IH].
  - exact (substring_prefix b c).
  - exact IH.
Qed.

Lemma string_length_app (a b : string) :
  String.length (a +:+ b) = (String.length a + String.length b)%nat.
Proof. induction a as [|x a IH]; simpl; [done | by rewrite IH]. Qed.

Lemma py_split_nonempty (c : ascii) (s : string) : py_split c s ≠ [].
Proof.
  destruct s as [|d s]; simpl; [done |].
  destruct (Ascii.eqb d c); [done |].
  by destruct (py_split c s).
Qed.

Lemma py_split_free (c : ascii) (s : string) :
  char_free c s → py_split c s = [s].
Proof.
  induction s as [|d s IH]; simpl; [done |].
  intros [Hd Hs]. rewrite (IH Hs).
  destruct (Ascii.eqb_spec d c); [done | done].
Qed.

(** Splitting distributes over a separator in the middle. *)
Lemma py_split_app (c : ascii) (p s : string) :
  py_split c (p +:+ String c s) = py_split c p ++ py_split c s.
Proof.
  induction p as [|d p IH]; simpl.
  - by rewrite Ascii.eqb_refl.
  - rewrite IH. destruct (Ascii.eqb d c); [done |].
    pose proof (py_split_nonempty c p) as Hne.
    by destruct (py_split c p).
Qed.

Lemma col_year_suffix (p y : string) :
  char_free "_" y → col_year (p +:+ "_" +:+ y) = y.
Proof.
  intros Hy. unfold col_year, py_last.
  change (p +:+ "_" +:+ y) with (p +:+ String "_" y).
  rewrite py_split_app, (py_split_free _ _ Hy).
  apply List.last_last.
Qed.

(** The slice is positional: it is the year for any extension of four
    characters, the dot included. *)
Lemma fname_year_stem (stem year ext : string) :
  String.length year = 4%nat → String.length ext = 4%nat →
  fname_year (stem +:+ year +:+ ext) = year.
Proof.
  intros Hy He. unfold fname_year, py_slice.
  rewrite !string_length_app, Hy, He.
  replace (py_bound _ (-8)) with (String.length stem)
    by (unfold py_bound; simpl; lia).
  replace (py_bound _ (-4)) with (String.length stem + 4)%nat
    by (unfold py_bound; simpl; lia).
  replace (String.length stem + 4 - String.length stem)%nat
    with (String.length year) by lia.
  apply substring_middle.
Qed.

End Strings.

(* ================================================================== *)
(** * Running a stage *)
(* ================================================================== *)

Section Running.

Context {A B : Type}.

Lemma bind_ok (c : M A) (k : A → M B) (w w' : World) (b : B) :
  m_bind c k w = (inr b, w') →
  ∃ a w1, c w = (inr a, w1) ∧ k a w1 = (inr b, w').
Proof.
  unfold m_bind. destruct (c w) as [[e|a] w1]; [done |]. eauto.
Qed.

Lemma bind_raise (c : M A) (k : A → M B) (w w' : World) (e : error) :
  c w = (inl e, w') → m_bind c k w = (inl e, w').
Proof. unfold m_bind. by intros ->. Qed.

Lemma bind_step (c : M A) (k : A → M B) (w w1 : World) (a : A) :
  c w = (inr a, w1) → m_bind c k w = k a w1.
Proof. unfold m_bind. by intros ->. Qed.

End Running.

Lemma listdir_ok p w l w' :
  listdir p w = (inr l, w') → w' = w ∧ w_dirs w !! p = Some l.
Proof. unfold listdir. destruct (w_dirs w !! p); naive_solver. Qed.

Lemma read_csv_ok p w df w' :
  read_csv p w = (inr df, w') → w' = w ∧ w_files w !! p = Some df.
Proof. unfold read_csv. destruct (w_files w !! p); naive_solver. Qed.

Lemma lift_ok {A} (r : Res A) w a w' :
  lift r w = (inr a, w') → w' = w ∧ r = inr a.
Proof. unfold lift. naive_solver. Qed.

(** A write that returns has found its directory and replaced the file. *)
Lemma to_csv_ok p df w w' :
  to_csv p df w = (inr tt, w') →
  parent_exists w p = inr tt
  ∧ w' = mkWorld (w_dirs w) (<[p := df]> (w_files w)) (w_stdout w).
Proof.
  unfold to_csv. destruct (parent_exists w p) as [e | []]; [done |].
  by intros [= <-].
Qed.

(** A write that raises leaves the world as it was. *)
Lemma to_csv_raises p df w e w' :
  to_csv p df w = (inl e, w') → w' = w.
Proof.
  unfold to_csv. destruct (parent_exists w p) as [e' | []]; [| done].
  by intros [= _ <-].
Qed.

Lemma read_all_ok ps : ∀ w dfs w',
  map_m read_csv ps w = (inr dfs, w') →
  w' = w ∧ Forall2 (λ p df, w_files w !! p = Some df) ps dfs.
Proof.
  induction ps as [|p ps IH]; intros w dfs w' H; simpl in H.
  - unfold m_ret in H. by simplify_eq.
  - apply bind_ok in H as (df & w1 & H1 & H).
    apply read_csv_ok in H1 as [-> H1].
    apply bind_ok in H as (dfs' & w2 & H2 & H).
    apply IH in H2 as [-> H2].
    unfold m_ret in H. simplify_eq. by split; [| constructor].
Qed.

(** Take a successful run apart, one statement at a time. *)
Ltac run_ok H :=
  repeat match type of H with
  | m_bind (listdir _) _ _ = (inr _, _) =>
      let l := fresh "names" in let w := fresh "w" in
      let Hl := fresh "Hdir" in
      apply bind_ok in H as (l & w & Hl & H);
      apply listdir_ok in Hl as [-> Hl]
  | m_bind (read_csv _) _ _ = (inr _, _) =>
      let df := fresh "df" in let w := fresh "w" in
      let Hf := fresh "Hfile" in
      apply bind_ok in H as (df & w & Hf & H);
      apply read_csv_ok in Hf as [-> Hf]
  | m_bind (map_m read_csv _) _ _ = (inr _, _) =>
      let dfs := fresh "dfs" in let w := fresh "w" in
      let Hf := fresh "Hfiles" in
      apply bind_ok in H as (dfs & w & Hf & H);
      apply read_all_ok in Hf as [-> Hf]
  | m_bind (lift _) _ _ = (inr _, _) =>
      let a := fresh "v" in let w := fresh "w" in
      let Hr := fresh "Hres" in
      apply bind_ok in H as (a & w & Hr & H);
      apply lift_ok in Hr as [-> Hr]
  | m_bind (to_csv _ _) _ _ = (inr _, _) =>
      let u := fresh "u" in let w := fresh "w" in
      let Hw := fresh "Hwrite" in
      apply bind_ok in H as (u & w & Hw & H);
      destruct u; apply to_csv_ok in Hw as [Hw ->]
  | print _ _ = (inr _, _) =>
      unfold print in H
  end.

(* ================================================================== *)
(** * Alignment on a RangeIndex *)
(* ================================================================== *)

Section Alignment.

Lemma length_reindex (n : nat) (s : Series) : length (reindex n s) = n.
Proof.
  unfold reindex. destruct (Nat.leb_spec n (length s)).
  - rewrite length_take. lia.
  - rewrite length_app, length_map, length_replicate. lia.
Qed.

Lemma reindex_le (n : nat) (s : Series) :
  n ≤ length s → reindex n s = take n s.
Proof. intros H. unfold reindex. by destruct (Nat.leb_spec n (length s)); [| lia]. Qed.

Lemma reindex_id (s : Series) : reindex (length s) s = s.
Proof. rewrite reindex_le by done. apply firstn_all. Qed.

(** A cell that padding turned into a float64 has kept its value. *)
Lemma to_float_aligned (mine other : nat) (c : cell) :
  to_float (aligned mine other c) = to_float c.
Proof. unfold aligned. by destruct (mine <? other)%nat. Qed.

Lemma aligned_NaN (mine other : nat) : aligned mine other NaN = NaN.
Proof. unfold aligned. by destruct (mine <? other)%nat. Qed.

Lemma aligned_same (n : nat) (c : cell) : aligned n n c = c.
Proof. unfold aligned. by rewrite Nat.ltb_irrefl. Qed.

(** Inside the new index a position keeps its cell, as a float64 if the
    Series had to be padded, or is NaN where the Series had none. *)
Lemma lookup_reindex (n i : nat) (s : Series) :
  i < n → reindex n s !! i = Some (aligned (length s) n (nth i s NaN)).
Proof.
  intros Hi. unfold reindex, aligned.
  destruct (Nat.leb_spec n (length s)) as [Hle | Hlt].
  - destruct (Nat.ltb_spec (length s) n); [lia |].
    rewrite lookup_take_lt by done. rewrite nth_lookup.
    by destruct (lookup_lt_is_Some_2 s i ltac:(lia)) as [x ->].
  - destruct (Nat.ltb_spec (length s) n); [| lia].
    rewrite nth_lookup.
    destruct (decide (i < length s)) as [Hin | Hout].
    + rewrite lookup_app_l by (rewrite length_map; lia).
      rewrite list_lookup_fmap.
      by destruct (lookup_lt_is_Some_2 s i Hin) as [x ->].
    + rewrite (lookup_ge_None_2 s i) by lia.
      rewrite lookup_app_r by (rewrite length_map; lia).
      apply lookup_replicate_2. rewrite length_map. lia.
Qed.

Lemma nth_reindex (n i : nat) (s : Series) :
  i < n → nth i (reindex n s) NaN = aligned (length s) n (nth i s NaN).
Proof. intros Hi. by apply nth_lookup_Some, lookup_reindex. Qed.

End Alignment.

(* ================================================================== *)
(** * Selecting and assigning columns *)
(* ================================================================== *)

Section Frames.

Implicit Types (df : DataFrame) (k : string) (s : list cell).
Implicit Types (cols : list (string * list cell)).

Lemma sel_cons_eq cols k s : sel ((k, s) :: cols) k = s :: sel cols k.
Proof. unfold sel. by rewrite filter_cons_True. Qed.

Lemma sel_cons_ne cols k k' s : k' ≠ k → sel ((k', s) :: cols) k = sel cols k.
Proof. intros. unfold sel. by rewrite filter_cons_False. Qed.

Lemma sel_app cols1 cols2 k : sel (cols1 ++ cols2) k = sel cols1 k ++ sel cols2 k.
Proof. unfold sel. by rewrite filter_app, map_app. Qed.

Lemma sel_missing cols k : k ∉ map fst cols → sel cols k = [].
Proof.
  induction cols as [|[k' s] cols IH]; [done |]. simpl. intros Hk.
  apply not_elem_of_cons in Hk as [Hne Hk].
  rewrite sel_cons_ne by done. by apply IH.
Qed.

Lemma sel_present cols k : k ∈ map fst cols → sel cols k ≠ [].
Proof.
  induction cols as [|[k' s] cols IH]; simpl; intros Hk.
  - by apply not_elem_of_nil in Hk.
  - destruct (decide (k' = k)) as [-> | Hne].
    + by rewrite sel_cons_eq.
    + rewrite sel_cons_ne by done. apply IH.
      apply elem_of_cons in Hk as [-> | Hk]; done.
Qed.

Lemma sel_unique cols k :
  NoDup (map fst cols) → k ∈ map fst cols → ∃ s, sel cols k = [s].
Proof.
  induction cols as [|[k' s] cols IH]; simpl; intros Hnd Hk.
  - by apply not_elem_of_nil in Hk.
  - apply NoDup_cons in Hnd as [Hk' Hnd].
    destruct (decide (k' = k)) as [-> | Hne].
    + exists s. by rewrite sel_cons_eq, sel_missing.
    + rewrite sel_cons_ne by done. apply IH; [done |].
      apply elem_of_cons in Hk as [-> | Hk]; done.
Qed.

Lemma sel_map_values (f : list cell → list cell) cols k :
  sel (map (λ c, (fst c, f (snd c))) cols) k = map f (sel cols k).
Proof.
  induction cols as [|[k' s] cols IH]; [done |]. simpl.
  destruct (decide (k' = k)) as [-> | Hne].
  - by rewrite !sel_cons_eq, IH.
  - by rewrite !sel_cons_ne, IH.
Qed.

Lemma sel_length cols k s n :
  Forall (λ c, length (snd c) = n) cols → s ∈ sel cols k → length s = n.
Proof.
  intros Hwf Hs. unfold sel in Hs.
  apply list_elem_of_fmap in Hs as ([k' s'] & -> & Hin).
  apply list_elem_of_filter in Hin as [_ Hin].
  by apply (proj1 (Forall_forall _ _) Hwf _ Hin).
Qed.

(** ** Indexing *)

Lemma getitem_missing df k : k ∉ labels df → getitem df k = inl (KeyError k).
Proof.
  intros Hk. unfold getitem, select.
  by rewrite sel_missing.
Qed.

Lemma getitem_present df k :
  NoDup (labels df) → k ∈ labels df → ∃ s, getitem df k = inr s.
Proof.
  intros Hnd Hk. unfold getitem, select.
  destruct (sel_unique _ _ Hnd Hk) as [s ->]. eauto.
Qed.

Lemma getitem_select df k s : getitem df k = inr s ↔ select df k = [s].
Proof.
  unfold getitem. destruct (select df k) as [|s1 [|s2 rest]]; naive_solver.
Qed.

Lemma getitem_label df k s : getitem df k = inr s → k ∈ labels df.
Proof.
  intros H. apply getitem_select in H.
  destruct (decide (k ∈ labels df)) as [|Hk]; [done |].
  unfold select in H. by rewrite sel_missing in H.
Qed.

Lemma getitem_length df k s :
  frame_wf df → getitem df k = inr s → length s = df_index df.
Proof.
  intros Hwf H. apply getitem_select in H.
  apply (sel_length (df_columns df) k s _ Hwf).
  unfold select in H. rewrite H. apply list_elem_of_here.
Qed.

(** Apart from a repeated label, indexing can only fail on a missing one. *)
Lemma getitem_error df k e :
  NoDup (labels df) → getitem df k = inl e → e = KeyError k ∧ k ∉ labels df.
Proof.
  intros Hnd H. destruct (decide (k ∈ labels df)) as [Hk | Hk].
  - destruct (getitem_present df k Hnd Hk) as [s Hs]. congruence.
  - rewrite getitem_missing in H by done. naive_solver.
Qed.

(** ** Assignment *)

(** Name the index an assignment settles on. *)
Local Ltac abstract_index :=
  match goal with
  | |- context [if (?a && ?b)%bool then ?x else ?y] =>
      let n := fresh "n" in
      set (n := if (a && b)%bool then x else y); clearbody n
  end.

Lemma sel_replace_ne cols k k' s :
  k' ≠ k →
  sel (map (λ c, if String.eqb (fst c) k then (k, s) else c) cols) k'
  = sel cols k'.
Proof.
  intros Hne. induction cols as [|[k0 s0] cols IH]; [done |]. simpl.
  destruct (String.eqb_spec k0 k) as [-> | Hk0].
  - by rewrite !sel_cons_ne by done.
  - destruct (decide (k0 = k')) as [-> | Hk0'].
    + by rewrite !sel_cons_eq, IH.
    + by rewrite !sel_cons_ne by done.
Qed.

Lemma sel_replace_eq cols k s :
  NoDup (map fst cols) → k ∈ map fst cols →
  sel (map (λ c, if String.eqb (fst c) k then (k, s) else c) cols) k = [s].
Proof.
  induction cols as [|[k0 s0] cols IH]; simpl; intros Hnd Hk.
  - by apply not_elem_of_nil in Hk.
  - apply NoDup_cons in Hnd as [Hk0 Hnd].
    destruct (String.eqb_spec k0 k) as [-> | Hne].
    + rewrite sel_cons_eq. f_equal. apply sel_missing.
      rewrite map_map. erewrite map_ext; [exact Hk0 |].
      intros [k1 s1]. simpl. by destruct (String.eqb_spec k1 k) as [-> |].
    + rewrite sel_cons_ne by done. apply IH; [done |].
      apply elem_of_cons in Hk as [-> | Hk]; done.
Qed.

Lemma labels_replace cols k s :
  map fst (map (λ c, if String.eqb (fst c) k then (k, s) else c) cols)
  = map fst cols.
Proof.
  rewrite map_map. apply map_ext. intros [k1 s1]. simpl.
  by destruct (String.eqb_spec k1 k) as [-> |].
Qed.

Lemma labels_reindexed n cols :
  map fst (map (λ c, (fst c, reindex n (snd c))) cols) = map fst cols.
Proof. rewrite map_map. by apply map_ext. Qed.

(** Assigning to a frame that has rows, or assigning a Series without
    rows, keeps the index. *)
Lemma setitem_index df k s :
  df_index df ≠ 0%nat ∨ length s = 0%nat →
  df_index (setitem df k s) = df_index df.
Proof.
  intros Hlen. unfold setitem. simpl.
  destruct (Nat.eqb_spec (df_index df) 0), (Nat.ltb_spec 0 (length s));
    simpl; lia.
Qed.

Lemma labels_setitem df k s :
  labels (setitem df k s)
  = if bool_decide (k ∈ labels df) then labels df else labels df ++ [k].
Proof.
  unfold setitem, labels. simpl. case_bool_decide.
  - by rewrite labels_replace, labels_reindexed.
  - by rewrite map_app, labels_reindexed.
Qed.

Lemma setitem_NoDup df k s :
  NoDup (labels df) → NoDup (labels (setitem df k s)).
Proof.
  intros Hnd. rewrite labels_setitem. case_bool_decide; [done |].
  apply NoDup_app. repeat split; [done | | apply NoDup_singleton].
  intros x Hx Hx'. apply list_elem_of_singleton in Hx'. by subst.
Qed.

Lemma setitem_wf df k s : frame_wf (setitem df k s).
Proof.
  unfold frame_wf, setitem. simpl.
  abstract_index.
  assert (Forall (λ c : string * list cell, length (snd c) = n)
            (map (λ c, (fst c, reindex n (snd c))) (df_columns df))) as Hold.
  { apply Forall_forall. intros c Hc.
    apply list_elem_of_fmap in Hc as (c0 & -> & _). simpl.
    apply length_reindex. }
  case_bool_decide.
  - apply Forall_forall. intros c Hc.
    apply list_elem_of_fmap in Hc as (c0 & -> & Hc0).
    destruct (String.eqb (fst c0) k); simpl; [apply length_reindex |].
    by apply (proj1 (Forall_forall _ _) Hold).
  - apply Forall_app. split; [done |].
    apply Forall_singleton. simpl. apply length_reindex.
Qed.

(** Another label keeps its columns, re-indexed to the frame. *)
Lemma select_setitem_ne df k k' s :
  k' ≠ k →
  select (setitem df k s) k'
  = map (reindex (df_index (setitem df k s))) (select df k').
Proof.
  intros Hne. unfold select, setitem. simpl.
  abstract_index.
  case_bool_decide.
  - by rewrite sel_replace_ne, sel_map_values.
  - rewrite sel_app, sel_map_values, sel_cons_ne by done.
    apply app_nil_r.
Qed.

(** The assigned label holds the assigned Series, re-indexed to the frame. *)
Lemma select_setitem_eq df k s :
  NoDup (labels df) →
  select (setitem df k s) k = [reindex (df_index (setitem df k s)) s].
Proof.
  intros Hnd. unfold select, setitem. simpl.
  abstract_index.
  case_bool_decide as Hk.
  - apply sel_replace_eq; by rewrite labels_reindexed.
  - rewrite sel_app, sel_cons_eq, sel_missing; [done |].
    by rewrite labels_reindexed.
Qed.

Lemma map_reindex_id n (l : list (list cell)) :
  Forall (λ s, length s = n) l → map (reindex n) l = l.
Proof.
  induction 1 as [|s l Hs _ IH]; [done |]. simpl.
  by rewrite IH, <- Hs, reindex_id.
Qed.

Lemma select_wf df k :
  frame_wf df → Forall (λ s, length s = df_index df) (select df k).
Proof.
  intros Hwf. apply Forall_forall. intros s Hs.
  by apply (sel_length (df_columns df) k).
Qed.

End Frames.

(* ================================================================== *)
(** * A loop that assigns one column per label *)
(* ================================================================== *)

Section YearLoop.

Variable compute : string → Res (list cell).
Variable name : string → string.
Variable n : nat.

Local Abbreviation step := (assign_step compute name).
Local Abbreviation inv := (loop_frame n).

(** As long as the frame has rows, or no Series assigned has any, the
    loop keeps the index; each column holds the last Series assigned under
    its name, re-indexed to the frame. *)
Lemma year_loop_ok (cols : list string) : ∀ df df',
  fold_res step df cols = inr df' →
  inv df →
  (∀ c s, c ∈ cols → compute c = inr s → n ≠ 0%nat ∨ length s = 0%nat) →
  inv df'
  ∧ (∀ k, k ∉ map name cols → select df' k = select df k)
  ∧ (∀ pre c post, cols = pre ++ c :: post → name c ∉ map name post →
       ∃ s, compute c = inr s ∧ select df' (name c) = [reindex n s]).
Proof.
  induction cols as [|c cs IH]; intros df df' Hrun Hinv Hlen; simpl in Hrun.
  - simplify_eq. split_and!; [done.. |].
    intros pre c post Hsplit. by destruct pre.
  - unfold assign_step at 1 in Hrun.
    destruct (compute c) as [e | s] eqn:Hc; [done |]. simpl in Hrun.
    destruct Hinv as (Hidx & Hwf & Hnd).
    assert (df_index df ≠ 0%nat ∨ length s = 0%nat) as Hs.
    { rewrite Hidx. eapply Hlen; [apply list_elem_of_here | done]. }
    assert (inv (setitem df (name c) s)) as Hinv1.
    { repeat split.
      - by rewrite setitem_index.
      - apply setitem_wf.
      - by apply setitem_NoDup. }
    destruct (IH _ _ Hrun Hinv1) as (Hinv' & Hframe & Hvalue).
    { intros c0 s0 Hc0. apply Hlen. by apply list_elem_of_further. }
    assert (∀ k, k ≠ name c →
              select (setitem df (name c) s) k = select df k) as Hother.
    { intros k Hk. rewrite select_setitem_ne, setitem_index, Hidx by done.
      apply map_reindex_id. rewrite <- Hidx. by apply select_wf. }
    split; [done |]. split.
    + intros k Hk. simpl in Hk. apply not_elem_of_cons in Hk as [Hk Hks].
      by rewrite Hframe, Hother.
    + intros pre c0 post Hsplit Hlast.
      destruct pre as [|c1 pre]; simpl in Hsplit;
        injection Hsplit as Hhead Htail.
      * subst c0 cs. exists s. split; [done |]. rewrite Hframe by done.
        by rewrite select_setitem_eq, setitem_index, Hidx.
      * by apply (Hvalue pre c0 post).
Qed.

(** The loop stops at the first label whose Series cannot be computed. *)
Lemma year_loop_raises (cols : list string) : ∀ df c e,
  c ∈ cols → compute c = inl e →
  ∃ c' e', c' ∈ cols ∧ compute c' = inl e' ∧ fold_res step df cols = inl e'.
Proof.
  induction cols as [|c0 cs IH]; intros df c e Hc He.
  - by apply not_elem_of_nil in Hc.
  - simpl. unfold assign_step at 1.
    destruct (compute c0) as [e0 | s0] eqn:Hc0.
    + exists c0, e0. split_and!; [apply list_elem_of_here | done..].
    + apply elem_of_cons in Hc as [-> | Hc]; [congruence |].
      destruct (IH (setitem df (name c0) s0) c e Hc He)
        as (c' & e' & Hc' & He' & Hrun).
      exists c', e'. split_and!; [by apply list_elem_of_further | done..].
Qed.

(** The labels the loop adds, in the order of its columns. *)
Lemma year_loop_labels (cols : list string) : ∀ df df',
  fold_res step df cols = inr df' →
  NoDup (map name cols) →
  (∀ c, c ∈ cols → name c ∉ labels df) →
  labels df' = labels df ++ map name cols.
Proof.
  induction cols as [|c cs IH]; intros df df' Hrun Hnd Hfresh; simpl in Hrun.
  - simplify_eq. by rewrite app_nil_r.
  - unfold assign_step at 1 in Hrun.
    destruct (compute c) as [e|s]; [done |]. simpl in Hrun.
    simpl in Hnd. apply NoDup_cons in Hnd as [Hc Hnd].
    assert (labels (setitem df (name c) s) = labels df ++ [name c]) as Hl.
    { rewrite labels_setitem. rewrite bool_decide_eq_false_2; [done |].
      apply Hfresh, list_elem_of_here. }
    rewrite (IH _ _ Hrun Hnd), Hl.
    + simpl. by rewrite <- app_assoc.
    + intros c' Hc'. rewrite Hl. intros Hin.
      apply elem_of_app in Hin as [Hin | Hin].
      * by apply (Hfresh c'); [apply list_elem_of_further |].
      * apply list_elem_of_singleton in Hin. apply Hc. rewrite <- Hin.
        by apply list_elem_of_fmap_2.
Qed.

End YearLoop.

(* ================================================================== *)
(** * Arithmetic on aligned Series *)
(* ================================================================== *)

Section SeriesArithmetic.

Implicit Types (a b : list cell) (f : cell → cell → cell).

Lemma length_series_op f a b :
  length (series_op f a b) = Nat.max (length a) (length b).
Proof.
  unfold series_op. rewrite length_zip_with, !length_reindex. lia.
Qed.

(** Series of one height are combined position by position. *)
Lemma series_op_aligned f a b :
  length a = length b → series_op f a b = zip_with f a b.
Proof.
  intros Hlen. unfold series_op. rewrite <- Hlen, Nat.max_id.
  rewrite reindex_id, Hlen. by rewrite reindex_id.
Qed.

(** Inside the union of the two indexes, an operator between two Series
    works on the aligned cells of one position. *)
Lemma lookup_series_op f a b i :
  i < Nat.max (length a) (length b) →
  series_op f a b !! i
  = Some (f (aligned (length a) (Nat.max (length a) (length b)) (nth i a NaN))
            (aligned (length b) (Nat.max (length a) (length b)) (nth i b NaN))).
Proof.
  intros Hi. unfold series_op.
  by rewrite lookup_zip_with, !lookup_reindex.
Qed.

Lemma length_series_scalar f a k : length (series_scalar f a k) = length a.
Proof. apply length_map. Qed.

Lemma lookup_series_scalar f a k i :
  series_scalar f a k !! i = (λ x, f x k) <$> a !! i.
Proof. unfold series_scalar. apply list_lookup_fmap. Qed.

Lemma length_benefit_series p65 pu65 hw :
  length (benefit_series p65 pu65 hw)
  = Nat.max (Nat.max (length p65) (length hw))
            (Nat.max (length pu65) (length hw)).
Proof.
  unfold benefit_series.
  by rewrite length_series_op, !length_series_scalar, !length_series_op.
Qed.

(** The product of two int64 that stays in the range of int64 is the
    product of the integers. *)
Lemma wrap64_small (z : Z) : (- 2 ^ 63 ≤ z < 2 ^ 63)%Z → wrap64 z = z.
Proof. intros Hz. unfold wrap64. rewrite Z.mod_small; lia. Qed.

(** A product with NaN is NaN. *)
Lemma f64_mul_nan_r (x : float64) : f64_mul x S754_nan = S754_nan.
Proof. by destruct x. Qed.

Lemma f64_mul_nan_l (x : float64) : f64_mul S754_nan x = S754_nan.
Proof. done. Qed.

(** The aligned cells of two columns multiply as [aligned_mul] says. *)
Lemma cell_mul_aligned (n m : nat) (x y : cell) :
  cell_mul (aligned n (Nat.max n m) x) (aligned m (Nat.max n m) y)
  = aligned_mul n m x y.
Proof.
  unfold aligned, aligned_mul.
  destruct (Nat.eqb_spec n m) as [-> | Hne].
  - by rewrite Nat.max_id, Nat.ltb_irrefl.
  - destruct (Nat.ltb_spec n (Nat.max n m)), (Nat.ltb_spec m (Nat.max n m));
      try lia; unfold cell_mul, astype_float; simpl.
    + done.
    + by destruct x.
Qed.

(** A label made by these prefixes is never [FID]. *)
Lemma ED_not_FID (y : string) : "FID" ≠ "ED_" +:+ y.
Proof. done. Qed.

Lemma Benefit_not_FID (y : string) : "FID" ≠ "Benefit_" +:+ y.
Proof. done. Qed.

Global Instance append_inj (p : string) : Inj (=) (=) (String.append p).
Proof.
  intros a b H. induction p as [|c p IH]; [done |].
  simpl in H. injection H as H. by apply IH.
Qed.

(** The first assignment to the empty frame. *)
Lemma first_column (k : string) (s : list cell) :
  df_index (setitem empty_frame k s) = length s
  ∧ frame_wf (setitem empty_frame k s)
  ∧ NoDup (labels (setitem empty_frame k s))
  ∧ select (setitem empty_frame k s) k = [s].
Proof.
  assert (df_index (setitem empty_frame k s) = length s) as Hidx.
  { unfold setitem. simpl. by destruct s. }
  split_and!; [done | apply setitem_wf | apply setitem_NoDup; constructor |].
  rewrite select_setitem_eq, Hidx by constructor.
  by rewrite reindex_id.
Qed.

End SeriesArithmetic.

(* ================================================================== *)
(** * The order of float64 and of int64 *)
(* ================================================================== *)

Section FloatOrder.

Implicit Types (x y z : float64).

(** Comparison of two float64 that are not NaN, on their keys. *)
Lemma f64_le_key x y :
  f64_isnan x = false → f64_isnan y = false →
  f64_le x y = true
  ↔ (let '(a1, a2, a3, _) := f64_key x in
     let '(b1, b2, b3, _) := f64_key y in
     a1 < b1 ∨ (a1 = b1 ∧ (a2 < b2 ∨ (a2 = b2 ∧ a3 ≤ b3))))%Z.
Proof.
  intros Hx Hy. unfold f64_le, SFleb, SFcompare.
  destruct x as [[]|[]| |[] m e], y as [[]|[]| |[] m' e']; try done;
    simpl; try (split; [intros _; lia | done]);
    try (split; [done | intros H; exfalso; lia]).
  - unfold Pos.compare_cont. fold (Pos.compare_cont Eq m m').
    change (Pos.compare_cont Eq m m') with (Pos.compare m m').
    destruct (Z.compare_spec e e'), (Pos.compare_spec m m'); simpl;
      split; (done || lia).
  - change (Pos.compare_cont Eq m m') with (Pos.compare m m').
    destruct (Z.compare_spec e e'), (Pos.compare_spec m m'); simpl;
      split; (done || lia).
Qed.

Lemma f64_lt_key x y :
  f64_isnan x = false → f64_isnan y = false →
  f64_lt x y = true
  ↔ (let '(a1, a2, a3, _) := f64_key x in
     let '(b1, b2, b3, _) := f64_key y in
     a1 < b1 ∨ (a1 = b1 ∧ (a2 < b2 ∨ (a2 = b2 ∧ a3 < b3))))%Z.
Proof.
  intros Hx Hy. unfold f64_lt, SFltb, SFcompare.
  destruct x as [[]|[]| |[] m e], y as [[]|[]| |[] m' e']; try done;
    simpl; try (split; [intros _; lia | done]);
    try (split; [done | intros H; exfalso; lia]).
  - change (Pos.compare_cont Eq m m') with (Pos.compare m m').
    destruct (Z.compare_spec e e'), (Pos.compare_spec m m'); simpl;
      split; (done || lia).
  - change (Pos.compare_cont Eq m m') with (Pos.compare m m').
    destruct (Z.compare_spec e e'), (Pos.compare_spec m m'); simpl;
      split; (done || lia).
Qed.

(** A comparison with NaN is [False]. *)
Lemma f64_le_nan_l x : f64_le S754_nan x = false.
Proof. done. Qed.

Lemma f64_le_nan_r x : f64_le x S754_nan = false.
Proof. by destruct x as [[]|[]| |[] m e]. Qed.

Lemma f64_lt_nan_l x : f64_lt S754_nan x = false.
Proof. done. Qed.

Lemma f64_lt_nan_r x : f64_lt x S754_nan = false.
Proof. by destruct x as [[]|[]| |[] m e]. Qed.

Lemma f64_le_not_nan x y :
  f64_le x y = true → f64_isnan x = false ∧ f64_isnan y = false.
Proof.
  intros H. destruct x as [[]|[]| |[] m e]; try done;
    destruct y as [[]|[]| |[] m' e']; done.
Qed.

(** A value that is not NaN equals itself. *)
Lemma f64_le_refl x : f64_isnan x = false → f64_le x x = true.
Proof.
  intros Hx. apply f64_le_key; [done.. |].
  destruct (f64_key x) as [[[a1 a2] a3] a4]. lia.
Qed.

Lemma f64_le_trans x y z :
  f64_le x y = true → f64_le y z = true → f64_le x z = true.
Proof.
  intros Hxy Hyz.
  destruct (f64_le_not_nan _ _ Hxy) as [Hx Hy].
  destruct (f64_le_not_nan _ _ Hyz) as [_ Hz].
  apply f64_le_key in Hxy; [| done..]. apply f64_le_key in Hyz; [| done..].
  apply f64_le_key; [done.. |].
  destruct (f64_key x) as [[[a1 a2] a3] a4], (f64_key y) as [[[b1 b2] b3] b4],
    (f64_key z) as [[[c1 c2] c3] c4]. lia.
Qed.

(** Below is the contrary of at or above. *)
Lemma f64_lt_not_le x y :
  f64_isnan x = false → f64_isnan y = false →
  f64_lt x y = negb (f64_le y x).
Proof.
  intros Hx Hy.
  pose proof (f64_lt_key x y Hx Hy) as Hlt.
  pose proof (f64_le_key y x Hy Hx) as Hle.
  destruct (f64_key x) as [[[a1 a2] a3] a4], (f64_key y) as [[[b1 b2] b3] b4].
  destruct (f64_lt x y), (f64_le y x); simpl; try done.
  - exfalso. destruct Hlt as [Hlt _], Hle as [Hle _].
    specialize (Hlt eq_refl). specialize (Hle eq_refl). lia.
  - exfalso.
    assert (¬ (a1 < b1 ∨ a1 = b1 ∧ (a2 < b2 ∨ a2 = b2 ∧ a3 < b3)))%Z as H1
      by (intros H; by apply Hlt in H).
    assert (¬ (b1 < a1 ∨ b1 = a1 ∧ (b2 < a2 ∨ b2 = a2 ∧ b3 ≤ a3)))%Z as H2
      by (intros H; by apply Hle in H).
    lia.
Qed.

(** ** The sorting order *)

Global Instance f64_order_total : Total f64_order.
Proof.
  intros x y. unfold f64_order, key_le.
  destruct (f64_key x) as [[[a1 a2] a3] a4], (f64_key y) as [[[b1 b2] b3] b4].
  lia.
Qed.

Global Instance f64_order_trans : Transitive f64_order.
Proof.
  intros x y z. unfold f64_order, key_le.
  destruct (f64_key x) as [[[a1 a2] a3] a4], (f64_key y) as [[[b1 b2] b3] b4],
    (f64_key z) as [[[c1 c2] c3] c4].
  lia.
Qed.

Lemma f64_key_inj x y : f64_key x = f64_key y → x = y.
Proof.
  destruct x as [[]|[]| |[] m e], y as [[]|[]| |[] m' e']; simpl;
    intros H; try done; injection H; intros; f_equal; lia.
Qed.

Global Instance f64_order_antisym : AntiSymm (=) f64_order.
Proof.
  intros x y Hxy Hyx. apply f64_key_inj.
  unfold f64_order, key_le in *.
  destruct (f64_key x) as [[[a1 a2] a3] a4], (f64_key y) as [[[b1 b2] b3] b4].
  repeat f_equal; lia.
Qed.

(** The sorting order is the order of the values: among values that are
    not NaN it is [<=]. *)
Lemma f64_order_le x y :
  f64_isnan x = false → f64_isnan y = false →
  f64_order x y → f64_le x y = true.
Proof.
  intros Hx Hy H. apply f64_le_key; [done.. |].
  unfold f64_order, key_le in H.
  destruct (f64_key x) as [[[a1 a2] a3] a4], (f64_key y) as [[[b1 b2] b3] b4].
  lia.
Qed.

Lemma f64_lt_order x y : f64_lt x y = true → f64_order x y.
Proof.
  intros H.
  assert (f64_isnan x = false ∧ f64_isnan y = false) as [Hx Hy].
  { destruct x as [[]|[]| |[] m e]; try done;
      destruct y as [[]|[]| |[] m' e']; done. }
  apply f64_lt_key in H; [| done..].
  unfold f64_order, key_le.
  destruct (f64_key x) as [[[a1 a2] a3] a4], (f64_key y) as [[[b1 b2] b3] b4].
  lia.
Qed.

(** A sorted row without NaN is ascending. *)
Lemma f64_sorted_ascending (s : list float64) :
  Forall (λ x, f64_isnan x = false) s →
  Sorted f64_order s → Sorted f64_ascending s.
Proof.
  intros Hs Hsorted. induction Hsorted as [|x s _ IH Hhd]; [constructor |].
  apply Forall_cons in Hs as [Hx Hs].
  constructor; [by apply IH |].
  destruct Hhd as [|y s Hxy]; constructor.
  apply Forall_cons in Hs as [Hy _]. by apply f64_order_le.
Qed.

Global Instance Z_le_total : Total Z.le.
Proof. intros x y. lia. Qed.

End FloatOrder.

(* ================================================================== *)
(** * The quantile against its reference *)
(* ================================================================== *)

Section Quantile.

Lemma binary_round_aux_sign (sx : bool) (mx ex : Z) (lx : location) :
  match binary_round_aux 53 1024 sx mx ex lx with
  | S754_zero s | S754_infinity s | S754_finite s _ _ => s = sx
  | S754_nan => True
  end.
Proof.
  unfold binary_round_aux.
  destruct (shr_fexp 53 1024 mx ex lx) as [mrs' e'].
  destruct (shr_fexp 53 1024 _ e' loc_Exact) as [mrs'' e''].
  destruct (shr_m mrs''); [done | | done].
  by destruct (Z.leb e'' _).
Qed.

Lemma f64_of_int_nonneg (z : Z) : (0 ≤ z)%Z → f64_nonneg (f64_of_int z).
Proof.
  intros Hz. unfold f64_of_int, binary_normalize.
  destruct z as [|m|m]; [done | | lia].
  unfold binary_round. destruct (shl_align _ _ _) as [mz ez].
  pose proof (binary_round_aux_sign false (Z.pos mz) ez loc_Exact) as H.
  unfold f64_nonneg. by destruct (binary_round_aux _ _ _ _ _ _).
Qed.

Lemma f64_mul_nonneg (x y : float64) :
  f64_nonneg x → f64_nonneg y → f64_nonneg (f64_mul x y).
Proof.
  unfold f64_nonneg, f64_mul, SFmul.
  destruct x as [sx|sx| |sx mx ex], y as [sy|sy| |sy my ey]; try done;
    try (by intros -> ->).
  intros -> ->. simpl.
  pose proof (binary_round_aux_sign false (Z.pos (mx * my)) (ex + ey) loc_Exact)
    as H.
  by destruct (binary_round_aux _ _ _ _ _ _).
Qed.

(** A value that is not below zero is not less than zero, and its floor
    is a natural number. *)
Lemma f64_nonneg_not_lt (x : float64) :
  f64_nonneg x → f64_lt x (f64_of_int 0) = false.
Proof. destruct x as [[]|[]| |[] m e]; done. Qed.

Lemma f64_floor_nonneg (x : float64) : f64_nonneg x → (0 ≤ f64_floor x)%Z.
Proof.
  destruct x as [s|s| |s m e]; simpl; try done.
  intros ->. simpl. by apply Z.shiftl_nonneg.
Qed.

Lemma f64_add_nan_r (x : float64) : f64_add x S754_nan = S754_nan.
Proof. by destruct x. Qed.

Lemma f64_sub_nan_r (x : float64) : f64_sub x S754_nan = S754_nan.
Proof. by destruct x. Qed.

(** numpy's interpolation is the reference's. *)
Lemma lerp_interpolate (a b t : float64) :
  lerp a b t = interpolate a b (f64_gap a b) t.
Proof.
  unfold lerp, interpolate, f64_gap.
  destruct (f64_isnan t) eqn:Ht.
  - destruct t; try done. simpl.
    by rewrite !f64_mul_nan_r, f64_add_nan_r, f64_sub_nan_r.
  - rewrite (f64_lt_not_le t f64_half) by done.
    by destruct (f64_le f64_half t).
Qed.

Lemma lerp_int_interpolate (a b : Z) (t : float64) :
  lerp_int a b t
  = interpolate (f64_of_int a) (f64_of_int b) (int_gap a b) t.
Proof.
  unfold lerp_int, interpolate, int_gap.
  destruct (f64_isnan t) eqn:Ht.
  - destruct t; try done. simpl.
    by rewrite !f64_mul_nan_r, f64_add_nan_r, f64_sub_nan_r.
  - rewrite (f64_lt_not_le t f64_half) by done.
    by destruct (f64_le f64_half t).
Qed.

Lemma nth_last {A} (l : list A) (d : A) :
  nth (length l - 1) l d = List.last l d.
Proof.
  induction l as [|x [|y l] IH]; [done.. |].
  change (List.last (x :: y :: l) d) with (List.last (y :: l) d).
  rewrite <- IH. simpl. by rewrite Nat.sub_0_r.
Qed.

(** The quantile numpy computes for a row is its reference quantile: the
    row sorted by [R] is ascending, and the neighbours of the virtual index
    are the two order statistics around the position. *)
Lemma linear_quantile_reference {A} (R ascending : relation A)
    `{!RelDecision R, !Total R}
    (interp : A → A → float64 → float64)
    (val : A → float64) (gap : A → A → float64) (d : A)
    (q : float64) (xs : list A) :
  xs ≠ [] →
  f64_nonneg q →
  (∀ a b t, interp a b t = interpolate (val a) (val b) (gap a b) t) →
  (Sorted R (merge_sort R xs) → Sorted ascending (merge_sort R xs)) →
  reference_quantile ascending val gap d q xs
    (linear_quantile R interp d q xs).
Proof.
  intros Hne Hq Hinterp Hasc.
  exists (merge_sort R xs).
  split; [apply merge_sort_Permutation |].
  split; [apply Hasc, (Sorted_merge_sort R) |].
  cbv zeta. unfold linear_quantile.
  assert (length (merge_sort R xs) = length xs) as Hlen
    by (by rewrite merge_sort_Permutation).
  assert (0 ≤ Z.of_nat (length xs) - 1)%Z as Hpos
    by (destruct xs; [done | simpl; lia]).
  set (top := f64_of_int (Z.of_nat (length xs) - 1)).
  set (h := f64_mul top q).
  assert (f64_nonneg h) as Hh
    by (apply f64_mul_nonneg; [by apply f64_of_int_nonneg | done]).
  unfold get_indexes. fold top.
  destruct (f64_le top h) eqn:Hle; simpl.
  - destruct (f64_le_not_nan _ _ Hle) as [Htop Hnan].
    rewrite (f64_lt_not_le h top), Hle by done. simpl.
    rewrite Hinterp. unfold py_index. simpl.
    replace (Z.to_nat (Z.of_nat (length (merge_sort R xs)) + -1))
      with (length (merge_sort R xs) - 1)%nat by lia.
    by rewrite nth_last.
  - destruct (f64_isnan h) eqn:Hnan.
    + destruct h eqn:Hh'; try done.
      rewrite f64_lt_nan_l.
      rewrite Hinterp. unfold py_index. simpl.
      replace (Z.to_nat (Z.of_nat (length (merge_sort R xs)) + -1))
        with (length (merge_sort R xs) - 1)%nat by lia.
      by rewrite nth_last.
    + assert (f64_isnan top = false) as Htop.
      { destruct top eqn:Htop; done || (subst h; by simpl in Hnan). }
      rewrite (f64_lt_not_le h top), Hle by done. simpl.
      rewrite f64_nonneg_not_lt by done.
      pose proof (f64_floor_nonneg h Hh) as Hfloor.
      exists (Z.to_nat (f64_floor h)).
      split; [lia |].
      rewrite Hinterp. unfold py_index.
      destruct (Z.ltb_spec (f64_floor h) 0); [lia |].
      destruct (Z.ltb_spec (f64_floor h + 1) 0); [lia |].
      rewrite Z2Nat.id by done.
      by replace (Z.to_nat (f64_floor h + 1))
        with (Z.to_nat (f64_floor h) + 1)%nat by lia.
Qed.

(** The fraction pandas hands to numpy and numpy scales back is [0.975]
    again. *)
Lemma q975_scaled : f64_div (f64_mul q975 f64_100) f64_100 = q975.
Proof. by vm_compute. Qed.

Lemma q975_nonneg : f64_nonneg q975.
Proof. done. Qed.

Lemma float_values_not_nan (r : list cell) :
  Forall (λ x, f64_isnan x = false) (float_values r).
Proof.
  unfold float_values. apply Forall_forall. intros x Hx.
  by apply list_elem_of_filter in Hx as [Hx _].
Qed.

(** The quantile of a row of a float64 table against the reference. *)
Lemma row_quantile_reference (r : list cell) :
  match float_values r with
  | [] => row_quantile q975 r = NaN
  | xs => ∃ v, row_quantile q975 r = F64 v
               ∧ reference_quantile f64_ascending id f64_gap S754_nan
                   q975 xs v
  end.
Proof.
  unfold row_quantile. fold (float_values r).
  pose proof (float_values_not_nan r) as Hnan.
  destruct (float_values r) as [|x xs] eqn:Hvals; [done |].
  eexists. split; [reflexivity |].
  apply (linear_quantile_reference f64_order);
    [apply _ | done | apply q975_nonneg | |].
  - intros a b t. apply lerp_interpolate.
  - intros _. apply f64_sorted_ascending; [| apply (Sorted_merge_sort _)].
    by rewrite merge_sort_Permutation.
Qed.

(** The quantile of a row of an int64 table against the reference. *)
Lemma row_quantile_int_reference (r : list cell) :
  int_values r ≠ [] →
  ∃ v, row_quantile_int q975 r = F64 v
       ∧ reference_quantile Z.le f64_of_int int_gap 0%Z q975 (int_values r) v.
Proof.
  intros Hne. unfold row_quantile_int. fold (int_values r).
  eexists. split; [reflexivity |].
  apply (linear_quantile_reference Z.le);
    [apply _ | done | apply q975_nonneg | | done].
  intros a b t. apply lerp_int_interpolate.
Qed.

End Quantile.

(* ================================================================== *)
(** * Stage 1 *)
(* ================================================================== *)

Section Baseline.

(** What a successful run of stage 1 read and what it wrote. *)
Lemma baseline_run w dir out w' :
  calculate_baseline_threshold dir out w = (inr tt, w') →
  ∃ names dfs wide,
    w_dirs w !! dir = Some names ∧
    Forall2 (λ f df, w_files w !! path_join dir f = Some df)
            (filter (λ f, py_endswith f ".csv" = true) names) dfs ∧
    concat_axis1 dfs = inr wide ∧
    w_files w' = <[out := series_frame quantile_name (quantile_axis1 q975 wide)]>
                   (w_files w).
Proof.
  intros H. unfold calculate_baseline_threshold in H. run_ok H.
  exists names, dfs, v. simplify_eq. simpl. repeat split; try done.
  by apply Forall2_fmap_l in Hfiles.
Qed.

(** A directory without a single CSV file leaves nothing to concatenate. *)
Lemma baseline_no_csv w dir out names :
  w_dirs w !! dir = Some names →
  Forall (λ f, py_endswith f ".csv" ≠ true) names →
  calculate_baseline_threshold dir out w
  = (inl (ValueError "No objects to concatenate"), w).
Proof.
  intros Hdir Hnone. unfold calculate_baseline_threshold.
  rewrite (bind_step _ _ w w names) by (unfold listdir; by rewrite Hdir).
  replace (filter _ names) with (@nil string); [done |].
  clear Hdir. induction Hnone as [|f names Hf _ IH]; [done |].
  rewrite filter_cons_False by exact Hf. exact IH.
Qed.

Lemma concat_axis1_index dfs wide :
  concat_axis1 dfs = inr wide →
  df_index wide = foldr (λ df, Nat.max (df_index df)) 0%nat dfs.
Proof. destruct dfs; intros H; simplify_eq/=; done. Qed.

Lemma concat_axis1_columns dfs wide :
  concat_axis1 dfs = inr wide →
  df_columns wide
  = flat_map (λ df, map (λ c, (fst c, reindex (df_index wide) (snd c)))
                        (df_columns df)) dfs.
Proof. destruct dfs; intros H; simplify_eq/=; done. Qed.

Lemma max_index_le (dfs : list DataFrame) (df : DataFrame) :
  df ∈ dfs → df_index df ≤ foldr (λ df, Nat.max (df_index df)) 0%nat dfs.
Proof.
  induction dfs as [|df' dfs IH]; intros Hin.
  - by apply not_elem_of_nil in Hin.
  - simpl. apply elem_of_cons in Hin as [-> | Hin]; [lia |].
    specialize (IH Hin). lia.
Qed.

(** A row of the wide table holds the cells of the row of each file, one
    file after another, each as its column was aligned; a file too short
    for the row contributes NaN. *)
Lemma concat_axis1_row dfs wide i :
  concat_axis1 dfs = inr wide → i < df_index wide →
  row wide i
  = flat_map (λ df, map (λ c, aligned (length (snd c)) (df_index wide)
                                      (nth i (snd c) NaN))
                        (df_columns df)) dfs.
Proof.
  intros H Hi. unfold row. rewrite (concat_axis1_columns _ _ H).
  generalize dependent (df_index wide). intros n Hi. clear H.
  induction dfs as [|df dfs IH]; [done |].
  simpl. rewrite map_app, IH. f_equal.
  rewrite map_map. apply map_ext. intros c. simpl.
  by apply nth_reindex.
Qed.

(** As float64, the cells of a row of the wide table are the cells of the
    files. *)
Lemma concat_axis1_float_values dfs wide i :
  concat_axis1 dfs = inr wide → i < df_index wide →
  float_values (row wide i) = float_values (wide_row dfs i).
Proof.
  intros H Hi. unfold float_values. f_equal.
  rewrite (concat_axis1_row _ _ _ H Hi). unfold wide_row.
  clear H Hi. induction dfs as [|df dfs IH]; [done |].
  simpl. rewrite !map_app, IH. f_equal.
  rewrite !map_map. apply map_ext. intros c.
  apply to_float_aligned.
Qed.

(** A padded column is no int64 column. *)
Lemma is_int_reindex (n : nat) (s : list cell) :
  length s ≤ n →
  forallb is_int (reindex n s) = (length s =? n)%nat && forallb is_int s.
Proof.
  intros Hle. destruct (Nat.eqb_spec (length s) n) as [<- | Hne].
  - by rewrite reindex_id.
  - unfold reindex. destruct (Nat.leb_spec n (length s)); [lia |].
    rewrite forallb_app.
    destruct (n - length s)%nat as [|k] eqn:Hk; [lia |]. simpl.
    apply andb_false_r.
Qed.

Lemma forallb_flat_map {A B} (f : B → bool) (g : A → list B) (l : list A) :
  forallb f (flat_map g l) = forallb (λ x, forallb f (g x)) l.
Proof.
  induction l as [|x l IH]; [done |]. simpl. by rewrite forallb_app, IH.
Qed.

Lemma forallb_ext_elem {A} (f g : A → bool) (l : list A) :
  (∀ x, x ∈ l → f x = g x) → forallb f l = forallb g l.
Proof.
  induction l as [|x l IH]; intros H; [done |]. simpl.
  rewrite (H x) by apply list_elem_of_here.
  by rewrite IH by (intros y Hy; by apply H, list_elem_of_further).
Qed.

Lemma forallb_elem {A} (f : A → bool) (l : list A) :
  forallb f l = true ↔ ∀ x, x ∈ l → f x = true.
Proof.
  induction l as [|x l IH]; simpl.
  - split; [| done]. intros _ y Hy. by apply not_elem_of_nil in Hy.
  - rewrite andb_true_iff, IH. split.
    + intros [Hx Hl] y Hy. apply elem_of_cons in Hy as [-> | Hy]; auto.
    + intros H. split; [apply H, list_elem_of_here |].
      intros y Hy. by apply H, list_elem_of_further.
Qed.

Lemma forallb_fmap {A B} (f : B → bool) (g : A → B) (l : list A) :
  forallb f (map g l) = forallb (λ x, f (g x)) l.
Proof. induction l as [|x l IH]; [done |]. simpl. by rewrite IH. Qed.

(** The wide table is an int64 table exactly when the files make one. *)
Lemma concat_axis1_is_int dfs wide :
  Forall frame_wf dfs →
  concat_axis1 dfs = inr wide →
  frame_is_int wide = int_table dfs (df_index wide).
Proof.
  intros Hwf H. unfold frame_is_int, int_table.
  rewrite (concat_axis1_columns _ _ H).
  pose proof (concat_axis1_index _ _ H) as Hidx.
  set (n := df_index wide) in *.
  set (cols := flat_map _ dfs).
  assert (forallb (λ c : string * list cell, forallb is_int (snd c)) cols
          = forallb (λ df, forallb (λ c, (df_index df =? n)%nat
                                         && forallb is_int (snd c))
                                   (df_columns df)) dfs) as Hall.
  { unfold cols. rewrite forallb_flat_map.
    apply forallb_ext_elem. intros df Hdf.
    rewrite forallb_fmap. apply forallb_ext_elem. intros c Hc. simpl.
    assert (length (snd c) = df_index df) as Hlen
      by (by apply (proj1 (Forall_forall _ _)
                      (proj1 (Forall_forall _ _) Hwf df Hdf))).
    rewrite is_int_reindex, Hlen; [done |].
    rewrite Hlen, Hidx. by apply max_index_le. }
  assert (forallb (λ df, bool_decide (df_columns df = [])) dfs
          = bool_decide (cols = [])) as Hnone.
  { unfold cols. clear. induction dfs as [|df dfs IH]; [done |]. simpl.
    rewrite IH. destruct (df_columns df) as [|c l]; simpl; [| done].
    by destruct (bool_decide _). }
  rewrite Hnone, <- Hall.
  by destruct cols.
Qed.

(** In an int64 table no column was padded. *)
Lemma concat_axis1_int_row dfs wide i :
  Forall frame_wf dfs →
  concat_axis1 dfs = inr wide → i < df_index wide →
  int_table dfs (df_index wide) = true →
  row wide i = wide_row dfs i
  ∧ int_values (wide_row dfs i) ≠ [].
Proof.
  intros Hwf H Hi Hint.
  rewrite (concat_axis1_row _ _ _ H Hi). unfold wide_row.
  unfold int_table in Hint. apply andb_true_iff in Hint as [Hsome Hint].
  set (n := df_index wide) in *. clearbody n. clear H.
  assert (∀ df c, df ∈ dfs → c ∈ df_columns df →
            length (snd c) = n ∧ ∃ z, nth i (snd c) NaN = I64 z) as Hcell.
  { intros df c Hdf Hc.
    pose proof (proj1 (forallb_elem _ _) Hint df Hdf) as Hdf'.
    pose proof (proj1 (forallb_elem _ _) Hdf' c Hc) as Hc'.
    apply andb_true_iff in Hc' as [Hn Hc'].
    apply Nat.eqb_eq in Hn.
    assert (length (snd c) = n) as Hlen.
    { rewrite <- Hn.
      by apply (proj1 (Forall_forall _ _)
                  (proj1 (Forall_forall _ _) Hwf df Hdf)). }
    split; [done |].
    destruct (lookup_lt_is_Some_2 (snd c) i ltac:(lia)) as [x Hx].
    rewrite (nth_lookup_Some _ _ _ _ Hx).
    apply list_elem_of_lookup_2 in Hx.
    pose proof (proj1 (forallb_elem _ _) Hc' x Hx) as Hint'.
    destruct x; [eauto | done]. }
  split.
  - clear Hsome Hint Hwf. induction dfs as [|df dfs IH]; [done |]. simpl.
    rewrite IH.
    + f_equal. apply list_fmap_ext. intros k c Hc.
      apply list_elem_of_lookup_2 in Hc.
      destruct (Hcell df c) as [-> _]; [apply list_elem_of_here | done |].
      apply aligned_same.
    + intros df' c Hdf'. apply Hcell. by apply list_elem_of_further.
  - clear Hint Hwf. induction dfs as [|df dfs IH]; [done |]. simpl in *.
    destruct (df_columns df) as [|c cols] eqn:Hcols.
    + simpl. apply IH.
      * by destruct (forallb _ dfs).
      * intros df' c Hdf'. apply Hcell. by apply list_elem_of_further.
    + destruct (Hcell df c) as [_ [z Hz]];
        [apply list_elem_of_here | rewrite Hcols; apply list_elem_of_here |].
      simpl. unfold int_values. simpl. by rewrite Hz.
Qed.

Lemma length_quantile_axis1 q df : length (quantile_axis1 q df) = df_index df.
Proof. unfold quantile_axis1. by rewrite length_map, length_seq. Qed.

Lemma lookup_quantile_axis1 df i :
  i < df_index df →
  quantile_axis1 q975 df !! i
  = Some (if frame_is_int df then row_quantile_int q975 (row df i)
          else row_quantile q975 (row df i)).
Proof.
  intros Hi. unfold quantile_axis1.
  by rewrite q975_scaled, list_lookup_fmap, lookup_seq_lt.
Qed.

(** The file stage 1 writes holds one column, and its header is the
    fraction, not the name stage 2 asks for. *)
Lemma baseline_output_header w dir out w' :
  calculate_baseline_threshold dir out w = (inr tt, w') →
  ∃ thr, w_files w' !! out = Some thr ∧ labels thr = [quantile_name].
Proof.
  intros H. apply baseline_run in H as (names & dfs & wide & _ & _ & _ & Hw).
  eexists. split; [rewrite Hw; apply lookup_insert_eq | done].
Qed.

End Baseline.

(* ================================================================== *)
(** * Stage 2 *)
(* ================================================================== *)

Section Heatwave.

Implicit Types (threshold data out temps : DataFrame).

Lemma length_sum_axis1 exceed : length (sum_axis1 exceed) = fst exceed.
Proof. unfold sum_axis1. by rewrite length_map, length_seq. Qed.

(** Counting the [True] of a row is counting the columns that exceed. *)
Lemma count_true (P : string * list cell → bool)
    (cols : list (string * list cell)) :
  foldr (λ c acc, (Z.b2z (P c) + acc)%Z) 0%Z cols
  = Z.of_nat (length (filter (λ c, P c = true) cols)).
Proof.
  induction cols as [|c cols IH]; [done |]. simpl. rewrite IH.
  destruct (P c) eqn:Hc.
  - rewrite filter_cons_True by done. simpl. lia.
  - rewrite filter_cons_False by (by rewrite Hc). simpl. lia.
Qed.

(** The [True] of row [i] among the columns of the comparison. *)
Lemma count_row_ge (n i : nat) (thr : list cell)
    (cols : list (string * list cell)) :
  i < n →
  foldr (λ (c : string * list bool) acc, (Z.b2z (nth i (snd c) false) + acc)%Z)
        0%Z
        (map (λ c : string * list cell,
                (fst c, zip_with cell_ge (reindex n (snd c)) (reindex n thr)))
             cols)
  = Z.of_nat (length (filter (λ c,
               cell_ge (aligned (length (snd c)) n (nth i (snd c) NaN))
                       (aligned (length thr) n (nth i thr NaN)) = true)
               cols)).
Proof.
  intros Hi.
  rewrite <- (count_true (λ c,
    cell_ge (aligned (length (snd c)) n (nth i (snd c) NaN))
            (aligned (length thr) n (nth i thr NaN)))).
  induction cols as [|[k c] cols IH]; [done |]. simpl.
  rewrite <- IH. f_equal. f_equal.
  rewrite (nth_lookup _ _ false), lookup_zip_with, !lookup_reindex by done.
  done.
Qed.

(** The count of row [i]: the aligned cells of the row are compared with
    the aligned threshold at position [i]. *)
Lemma lookup_sum_ge temps (thr : list cell) (i : nat) :
  let n := Nat.max (df_index temps) (length thr) in
  i < n →
  sum_axis1 (ge_axis0 temps thr) !! i
  = Some (count_cell (length (df_columns temps))
            (length (filter (λ c,
               cell_ge (aligned (length (snd c)) n (nth i (snd c) NaN))
                       (aligned (length thr) n (nth i thr NaN)) = true)
               (df_columns temps)))).
Proof.
  intros n Hi. unfold sum_axis1, ge_axis0. cbn [fst snd]. fold n.
  rewrite list_lookup_fmap, lookup_seq_lt by done. cbn [fmap option_fmap option_map].
  f_equal. unfold count_cell.
  destruct (df_columns temps) as [|c0 cols0]; [reflexivity |].
  cbn [length Nat.eqb].
  rewrite <- (count_row_ge n i thr (c0 :: cols0)) by done.
  reflexivity.
Qed.

Lemma filter_ext_elem {A} (P Q : A → Prop)
    `{!∀ x, Decision (P x), !∀ x, Decision (Q x)} (l : list A) :
  (∀ x, x ∈ l → P x ↔ Q x) → filter P l = filter Q l.
Proof.
  induction l as [|x l IH]; intros Hall; [done |].
  assert (filter P l = filter Q l) as Hl
    by (apply IH; intros y Hy; by apply Hall, list_elem_of_further).
  destruct (decide (P x)) as [Hx | Hx].
  - rewrite !filter_cons_True, Hl; [done | | done].
    by apply Hall; [apply list_elem_of_here |].
  - rewrite !filter_cons_False, Hl; [done | | done].
    intros Hq. apply Hx. by apply Hall; [apply list_elem_of_here |].
Qed.

Lemma rename_index old new df : df_index (rename old new df) = df_index df.
Proof. done. Qed.

Lemma rename_wf old new df : frame_wf df → frame_wf (rename old new df).
Proof.
  unfold frame_wf, rename. simpl. intros Hwf.
  apply Forall_forall. intros c Hc.
  apply list_elem_of_fmap in Hc as (c0 & -> & Hc0). simpl.
  by apply (proj1 (Forall_forall _ _) Hwf).
Qed.

Lemma length_filter_labels (k : string)
    (cols : list (string * list cell)) :
  length (filter (λ c, fst c ≠ k) cols)
  = length (filter (λ l, l ≠ k) (map fst cols)).
Proof.
  induction cols as [|[k' s] cols IH]; [done |]. simpl.
  destruct (decide (k' ≠ k)).
  - rewrite !filter_cons_True by done. simpl. by rewrite IH.
  - by rewrite !filter_cons_False by done.
Qed.

(** The columns the loop body keeps as temperatures are the temperature
    columns of the table it read. *)
Lemma temperature_columns_renamed data :
  filter (λ c, fst c ≠ "FID") (df_columns (rename "Unnamed: 0" "FID" data))
  = temperature_columns data.
Proof.
  unfold temperature_columns, rename. simpl.
  induction (df_columns data) as [|[k s] cols IH]; [done |]. simpl.
  destruct (String.eqb_spec k "Unnamed: 0") as [-> | Hk].
  - rewrite filter_cons_False by (by intros H).
    by rewrite (filter_cons_False _ (_, s)) by (by intros [_ H]).
  - destruct (decide (k = "FID")) as [-> | Hfid].
    + rewrite filter_cons_False by (by intros H).
      by rewrite (filter_cons_False _ (_, s)) by (by intros [H _]).
    + rewrite filter_cons_True by done.
      rewrite (filter_cons_True _ (_, s)) by done. by rewrite IH.
Qed.

Lemma temperature_columns_labels data :
  length (temperature_columns data)
  = length (filter (λ l, l ≠ "FID")
                   (labels (rename "Unnamed: 0" "FID" data))).
Proof.
  rewrite <- temperature_columns_renamed. apply length_filter_labels.
Qed.

Lemma temperature_columns_wf data c :
  frame_wf data → c ∈ temperature_columns data →
  length (snd c) = df_index data.
Proof.
  intros Hwf Hc. apply list_elem_of_filter in Hc as [_ Hc].
  by apply (proj1 (Forall_forall _ _) Hwf).
Qed.

(** Aligning with the longer of two columns is aligning with the other. *)
Lemma aligned_max_l (n m : nat) (c : cell) :
  aligned n (Nat.max n m) c = aligned n m c.
Proof.
  unfold aligned.
  destruct (Nat.ltb_spec n (Nat.max n m)), (Nat.ltb_spec n m); done || lia.
Qed.

Lemma aligned_max_r (n m : nat) (c : cell) :
  aligned m (Nat.max n m) c = aligned m n c.
Proof. rewrite Nat.max_comm. apply aligned_max_l. Qed.

(** What the body of the loop computed when it did not raise. *)
Lemma heatwave_leaf_ok threshold data out :
  heatwave_leaf threshold data = inr out →
  ∃ fid temps thr,
    getitem (rename "Unnamed: 0" "FID" data) "FID" = inr fid ∧
    drop_column (rename "Unnamed: 0" "FID" data) "FID" = inr temps ∧
    getitem threshold "Percent975" = inr thr ∧
    let days := sum_axis1 (ge_axis0 temps thr) in
    let n := Nat.max (length fid) (Nat.max (length days) 0) in
    out = mkDataFrame n [("FID", reindex n fid);
                         ("HeatwaveDays", reindex n days)].
Proof.
  unfold heatwave_leaf. intros H.
  set (data' := rename "Unnamed: 0" "FID" data) in *.
  destruct (select data' "FID") as [|fid rest] eqn:Hsel; [done |].
  destruct (drop_column data' "FID") as [|temps] eqn:Hdrop; [done |].
  destruct (getitem threshold "Percent975") as [|thr] eqn:Hthr; [done |].
  simpl in H. unfold frame_of_dict in H. simpl in H.
  destruct rest as [|fid2 rest]; simpl in H; [| by destruct rest].
  exists fid, temps, thr. split_and!; [| done | done |].
  - by apply getitem_select.
  - simpl. rewrite !app_nil_r in H. by injection H as <-.
Qed.

Lemma drop_column_ok df k temps :
  drop_column df k = inr temps →
  df_index temps = df_index df
  ∧ df_columns temps = filter (λ c, fst c ≠ k) (df_columns df).
Proof.
  unfold drop_column. destruct (select df k); [done |].
  intros [= <-]. done.
Qed.

(** The output of the body under a well-formed input: the index is the
    longer of the table and the threshold, and each row holds the number
    of its heatwave days. *)
Lemma heatwave_leaf_columns threshold data out :
  frame_wf data →
  heatwave_leaf threshold data = inr out →
  ∃ fid thr days,
    getitem (rename "Unnamed: 0" "FID" data) "FID" = inr fid ∧
    getitem threshold "Percent975" = inr thr ∧
    df_index out = Nat.max (df_index data) (length thr) ∧
    getitem out "FID" = inr (reindex (df_index out) fid) ∧
    getitem out "HeatwaveDays" = inr days ∧
    length days = df_index out ∧
    ∀ i, i < df_index out →
      days !! i = Some (count_cell (length (temperature_columns data))
                                   (heatwave_days data thr i)).
Proof.
  intros Hwf H.
  apply heatwave_leaf_ok in H as (fid & temps & thr & Hfid & Hdrop & Hthr & ->).
  pose proof (getitem_length _ _ _ (rename_wf _ _ _ Hwf) Hfid) as Hlen.
  rewrite rename_index in Hlen.
  destruct (drop_column_ok _ _ _ Hdrop) as [Hidx Hcols].
  rewrite rename_index in Hidx.
  rewrite temperature_columns_renamed in Hcols.
  assert (length (sum_axis1 (ge_axis0 temps thr))
          = Nat.max (df_index data) (length thr)) as Hdays
    by (rewrite length_sum_axis1; simpl; by rewrite Hidx).
  cbv zeta. rewrite Hdays, Hlen.
  replace (Nat.max (df_index data)
             (Nat.max (Nat.max (df_index data) (length thr)) 0))
    with (Nat.max (df_index data) (length thr)) by lia.
  exists fid, thr, (sum_axis1 (ge_axis0 temps thr)).
  split_and!; [done.. | | | done |].
  - apply getitem_select. unfold select. simpl. by rewrite sel_cons_eq.
  - apply getitem_select. unfold select. simpl.
    rewrite sel_cons_ne, sel_cons_eq by done.
    f_equal. rewrite <- Hdays. apply reindex_id.
  - simpl. intros i Hi.
    rewrite lookup_sum_ge by (rewrite Hidx; done).
    rewrite Hidx, Hcols. f_equal. f_equal. unfold heatwave_days.
    apply (f_equal length). apply filter_ext_elem. intros c Hc.
    unfold exceeds. rewrite (temperature_columns_wf _ _ Hwf Hc).
    by rewrite aligned_max_l, aligned_max_r.
Qed.

End Heatwave.

(** ** The traversal *)

Section Traversal.

(** A relation between the world before and the world after that every
    statement of a loop respects is respected by the loop, whether it ends
    normally or raises. *)
Variable R : World → World → Prop.
Hypothesis R_refl : ∀ w, R w w.
Hypothesis R_trans : ∀ w1 w2 w3, R w1 w2 → R w2 w3 → R w1 w3.

Lemma bind_respects {A B} (c : M A) (k : A → M B) :
  (∀ w r w1, c w = (r, w1) → R w w1) →
  (∀ a w1 r w2, k a w1 = (r, w2) → R w1 w2) →
  ∀ w r w', m_bind c k w = (r, w') → R w w'.
Proof.
  intros Hc Hk w r w' H. unfold m_bind in H.
  destruct (c w) as [[e|a] w1] eqn:Hcw.
  - simplify_eq. by eapply Hc.
  - eapply R_trans; [by eapply Hc | by eapply Hk].
Qed.

Lemma for_each_respects {A} (body : A → M unit) (l : list A) :
  (∀ x w r w1, body x w = (r, w1) → R w w1) →
  ∀ w r w', for_each l body w = (r, w') → R w w'.
Proof.
  intros Hbody. induction l as [|x l IH]; intros w r w' H; simpl in H.
  - unfold m_ret in H. simplify_eq. apply R_refl.
  - eapply bind_respects in H; [done | apply Hbody |]. intros _. apply IH.
Qed.

Lemma listdir_respects p w r w1 : listdir p w = (r, w1) → R w w1.
Proof.
  unfold listdir. destruct (w_dirs w !! p); intros; simplify_eq; apply R_refl.
Qed.

Lemma read_csv_respects p w r w1 : read_csv p w = (r, w1) → R w w1.
Proof.
  unfold read_csv. destruct (w_files w !! p); intros; simplify_eq; apply R_refl.
Qed.

Lemma lift_respects {A} (x : Res A) w r w1 : lift x w = (r, w1) → R w w1.
Proof. unfold lift. intros. simplify_eq. apply R_refl. Qed.

End Traversal.

Lemma elem_of_flat_map {A B} (f : A → list B) (l : list A) (y : B) :
  y ∈ flat_map f l ↔ ∃ x, x ∈ l ∧ y ∈ f x.
Proof.
  induction l as [|x l IH]; simpl.
  - split; [intros H; by apply not_elem_of_nil in H |].
    intros (x & Hx & _). by apply not_elem_of_nil in Hx.
  - rewrite elem_of_app, IH. split.
    + intros [Hy | (x' & Hx' & Hy)].
      * exists x. split; [apply list_elem_of_here | done].
      * exists x'. split; [by apply list_elem_of_further | done].
    + intros (x' & Hx' & Hy).
      apply elem_of_cons in Hx' as [-> | Hx']; [by left |].
      right. by exists x'.
Qed.

(** A loop whose body visits the leaves [tag x] has visited all of them
    when it returns. *)
Lemma for_each_visits {A} (body : A → M unit) (tag : A → list leaf)
    (Inv : list leaf → World → Prop) (l : list A) :
  (∀ x seen w1 w2, x ∈ l → Inv seen w1 → body x w1 = (inr tt, w2) →
     Inv (seen ++ tag x) w2) →
  ∀ seen w1 w2, Inv seen w1 → for_each l body w1 = (inr tt, w2) →
    Inv (seen ++ flat_map tag l) w2.
Proof.
  induction l as [|x l IH]; intros Hbody seen w1 w2 Hinv H; simpl in H.
  - unfold m_ret in H. simplify_eq. simpl. by rewrite app_nil_r.
  - apply bind_ok in H as ([] & w1' & Hx & H).
    simpl. rewrite app_assoc. apply (IH) with (w1 := w1'); [| | done].
    + intros y seen' w3 w4 Hy. apply Hbody. by apply list_elem_of_further.
    + apply (Hbody x seen w1 w1'); [apply list_elem_of_here | done..].
Qed.

Section Visited.

Variables (future_dir output_dir : string) (threshold : DataFrame).
Variable w : World.
Hypothesis Hapart : outputs_apart (w_dirs w) future_dir output_dir.

Local Abbreviation leaves := (all_leaves (w_dirs w) future_dir).
Local Abbreviation Inv :=
  (λ seen w', visited future_dir output_dir threshold w seen w'
              ∧ Forall (λ l, l ∈ leaves) seen).

Lemma outputs_apart_leaf (l1 l2 : leaf) :
  l1 ∈ leaves → l2 ∈ leaves →
  leaf_outname output_dir l1 ≠ leaf_path future_dir l2
  ∧ (leaf_outname output_dir l1 = leaf_outname output_dir l2 →
     leaf_path future_dir l1 = leaf_path future_dir l2).
Proof.
  intros H1 H2. unfold outputs_apart in Hapart.
  by apply (proj1 (Forall_forall _ _) (proj1 (Forall_forall _ _) Hapart l1 H1)).
Qed.

(** One turn of the innermost loop. *)
Lemma visited_leaf (l : leaf) (seen : list leaf) (w1 w2 : World) :
  l ∈ leaves → Inv seen w1 →
  (let! data := read_csv (leaf_path future_dir l) in
   let! out := lift (heatwave_leaf threshold data) in
   to_csv (leaf_outname output_dir l) out) w1 = (inr tt, w2) →
  Inv (seen ++ [l]) w2.
Proof.
  intros Hl [(Hdirs & Hkept & Hseen) Hin] H. run_ok H.
  apply to_csv_ok in H as [_ ->].
  assert (w_files w !! leaf_path future_dir l = Some df) as Hdata.
  { rewrite <- Hfile. symmetry. apply Hkept. intros l' Hl'.
    apply not_eq_sym.
    by apply outputs_apart_leaf; [apply (proj1 (Forall_forall _ _) Hin) |]. }
  split; [split_and! |].
  - done.
  - intros p Hp. simpl.
    rewrite lookup_insert_ne.
    + apply Hkept. intros l' Hl'. apply Hp, elem_of_app. by left.
    + apply not_eq_sym, Hp, elem_of_app. right. apply list_elem_of_here.
  - intros l' Hl'. simpl.
    destruct (decide (leaf_outname output_dir l' = leaf_outname output_dir l))
      as [Heq | Hne].
    + assert (l' ∈ leaves) as Hl'in.
      { apply elem_of_app in Hl' as [Hl' | Hl'].
        - by apply (proj1 (Forall_forall _ _) Hin).
        - apply list_elem_of_singleton in Hl'. by subst. }
      exists df, v. split_and!; [| done |].
      * by rewrite (proj2 (outputs_apart_leaf l' l Hl'in Hl) Heq).
      * rewrite Heq. apply lookup_insert_eq.
    + apply elem_of_app in Hl' as [Hl' | Hl'].
      * destruct (Hseen l' Hl') as (data & out & Hd & Ho & Hw).
        exists data, out. split_and!; [done.. |].
        by rewrite lookup_insert_ne.
      * apply list_elem_of_singleton in Hl'. by subst.
  - apply Forall_app. split; [done |]. by apply Forall_singleton.
Qed.

(** The whole traversal: when it returns it has visited every leaf. *)
Lemma visited_all (w' : World) :
  (let! scenarios := listdir future_dir in
   for_each scenarios (λ scenario,
     let scen_path := path_join future_dir scenario in
     let! models := listdir scen_path in
     for_each models (λ model,
       let model_path := path_join scen_path model in
       let! fnames := listdir model_path in
       for_each fnames (λ fname,
         let year := fname_year fname in
         let! data := read_csv (path_join model_path fname) in
         let! out := lift (heatwave_leaf threshold data) in
         let outname := path_join output_dir
           (scenario +:+ "_" +:+ model +:+ "_" +:+ year +:+ ".csv") in
         to_csv outname out)))) w = (inr tt, w') →
  visited future_dir output_dir threshold w leaves w'.
Proof.
  intros H. run_ok H.
  assert (Inv [] w) as Hinv0.
  { split; [| constructor]. split_and!; [done | done |].
    intros l Hl. by apply not_elem_of_nil in Hl. }
  unfold all_leaves.
  replace (listing (w_dirs w) future_dir) with names
    by (unfold listing; by rewrite Hdir).
  refine (proj1 (for_each_visits _
    (λ scenario, flat_map (λ model,
       map (λ fname, (scenario, model, fname))
           (listing (w_dirs w)
              (path_join (path_join future_dir scenario) model)))
       (listing (w_dirs w) (path_join future_dir scenario)))
    Inv names _ [] w w' Hinv0 H)).
  intros scenario seen1 w1 w2 Hscenario Hinv1 H1. cbv zeta in H1.
  pose proof (proj1 (proj1 Hinv1)) as Hdirs1.
  apply bind_ok in H1 as (models & w1' & Hmodels & H1).
  apply listdir_ok in Hmodels as [-> Hmodels]. rewrite Hdirs1 in Hmodels.
  replace (listing (w_dirs w) (path_join future_dir scenario)) with models
    by (unfold listing; by rewrite Hmodels).
  refine (for_each_visits _
    (λ model, map (λ fname, (scenario, model, fname))
                  (listing (w_dirs w)
                     (path_join (path_join future_dir scenario) model)))
    Inv models _ seen1 w1 w2 Hinv1 H1).
  intros model seen2 w3 w4 Hmodel Hinv2 H2. cbv zeta in H2.
  pose proof (proj1 (proj1 Hinv2)) as Hdirs2.
  apply bind_ok in H2 as (fnames & w3' & Hfnames & H2).
  apply listdir_ok in Hfnames as [-> Hfnames]. rewrite Hdirs2 in Hfnames.
  replace (listing (w_dirs w)
             (path_join (path_join future_dir scenario) model)) with fnames
    by (unfold listing; by rewrite Hfnames).
  assert (map (λ fname, (scenario, model, fname)) fnames
          = flat_map (λ fname, [(scenario, model, fname)]) fnames) as ->
    by (clear; induction fnames as [|f fs IH]; [done |]; simpl; by rewrite IH).
  refine (for_each_visits _ (λ fname, [(scenario, model, fname)])
            Inv fnames _ seen2 w3 w4 Hinv2 H2).
  intros fname seen3 w5 w6 Hfname Hinv3 H3.
  apply (visited_leaf (scenario, model, fname) seen3 w5 w6); [| done | done].
  unfold all_leaves. apply elem_of_flat_map. exists scenario.
  split; [unfold listing; by rewrite Hdir |].
  apply elem_of_flat_map. exists model.
  split; [unfold listing; by rewrite Hmodels |].
  apply list_elem_of_fmap. exists fname.
  split; [done |]. unfold listing. by rewrite Hfnames.
Qed.

End Visited.

(* ================================================================== *)
(** * Stages 3 and 4 *)
(* ================================================================== *)

Section ExcessDeaths.

(** What a successful run of stage 3 read and what it wrote. *)
Lemma excess_deaths_run w er_file mortality_file out w' :
  calculate_excess_deaths er_file mortality_file out w = (inr tt, w') →
  ∃ ER D fid df_out,
    w_files w !! er_file = Some ER ∧
    w_files w !! mortality_file = Some D ∧
    getitem ER "FID" = inr fid ∧
    fold_res (excess_deaths_step ER D) (setitem empty_frame "FID" fid)
             (tail (labels ER)) = inr df_out ∧
    w_files w' = <[out := df_out]> (w_files w).
Proof.
  intros H. unfold calculate_excess_deaths in H. run_ok H.
  exists df, df0, v, v0. by simplify_eq.
Qed.

Lemma excess_deaths_rhs_ok ER D col s :
  excess_deaths_rhs ER D col = inr s →
  ∃ er d, getitem ER col = inr er ∧
          getitem D ("Deaths-" +:+ col_year col) = inr d ∧
          s = series_op cell_mul er d.
Proof.
  unfold excess_deaths_rhs. intros H.
  destruct (getitem ER col) as [|er]; [done |].
  destruct (getitem D _) as [|d]; [done |].
  simpl in H. exists er, d. by simplify_eq.
Qed.

(** The frame the loop of stage 3 ends with, when the ER table has rows
    or the mortality table has none. *)
Lemma excess_deaths_loop ER D fid df_out :
  frame_wf ER → frame_wf D →
  df_index ER ≠ 0%nat ∨ df_index D = 0%nat →
  getitem ER "FID" = inr fid →
  fold_res (excess_deaths_step ER D) (setitem empty_frame "FID" fid)
           (tail (labels ER)) = inr df_out →
  df_index df_out = df_index ER
  ∧ getitem df_out "FID" = inr fid
  ∧ ∀ pre col post,
      tail (labels ER) = pre ++ col :: post →
      col_year col ∉ map col_year post →
      ∃ er d, getitem ER col = inr er ∧
              getitem D ("Deaths-" +:+ col_year col) = inr d ∧
              getitem df_out ("ED_" +:+ col_year col)
              = inr (reindex (df_index ER) (series_op cell_mul er d)).
Proof.
  intros HwfE HwfD Hrows Hfid Hrun.
  pose proof (getitem_length _ _ _ HwfE Hfid) as Hlen.
  destruct (first_column "FID" fid) as (Hidx & Hwf & Hnd & Hsel).
  rewrite Hlen in Hidx.
  apply (year_loop_ok (excess_deaths_rhs ER D)
           (λ c, "ED_" +:+ col_year c) (df_index ER)) in Hrun
    as ((Hidx' & _) & Hframe & Hvalue); [| done |].
  - split_and!; [done | |].
    + apply getitem_select. rewrite Hframe; [done |].
      intros Hin. apply list_elem_of_fmap in Hin as (c & Hc & _).
      by apply ED_not_FID in Hc.
    + intros pre col post Hsplit Hlast.
      destruct (Hvalue pre col post Hsplit) as (s & Hs & Hcol).
      { intros Hin. apply Hlast.
        apply list_elem_of_fmap in Hin as (c & Hc & Hin).
        apply (inj _) in Hc. rewrite Hc.
        by apply list_elem_of_fmap_2. }
      apply excess_deaths_rhs_ok in Hs as (er & d & Her & Hd & ->).
      exists er, d. split_and!; [done.. |]. by apply getitem_select.
  - intros c s _ Hs.
    apply excess_deaths_rhs_ok in Hs as (er & d & Her & Hd & ->).
    rewrite length_series_op.
    rewrite (getitem_length _ _ _ HwfE Her), (getitem_length _ _ _ HwfD Hd).
    lia.
Qed.

(** A cell of the product of two columns, re-indexed to the first. *)
Lemma lookup_product (er d : list cell) (i : nat) :
  i < length er →
  reindex (length er) (series_op cell_mul er d) !! i
  = Some (aligned_mul (length er) (length d) (nth i er NaN) (nth i d NaN)).
Proof.
  intros Hi. rewrite lookup_reindex by done.
  rewrite length_series_op. unfold aligned at 1.
  destruct (Nat.ltb_spec (Nat.max (length er) (length d)) (length er));
    [lia |].
  f_equal. apply nth_lookup_Some.
  rewrite lookup_series_op by lia. f_equal. apply cell_mul_aligned.
Qed.

Lemma elem_of_tail (c : string) (l : list string) : c ∈ tail l → c ∈ l.
Proof. destruct l; [done |]. apply list_elem_of_further. Qed.

Lemma excess_deaths_rhs_error ER D col e :
  NoDup (labels ER) → NoDup (labels D) →
  excess_deaths_rhs ER D col = inl e → ∃ key, e = KeyError key.
Proof.
  intros HndE HndD. unfold excess_deaths_rhs.
  destruct (getitem ER col) as [e1|er] eqn:Her; simpl.
  - intros [= <-]. apply getitem_error in Her as [-> _]; eauto.
  - destruct (getitem D _) as [e2|d] eqn:Hd; simpl; [| done].
    intros [= <-]. apply getitem_error in Hd as [-> _]; eauto.
Qed.

(** A year without its [Deaths-] column stops stage 3 with a [KeyError]
    before anything is written. *)
Lemma excess_deaths_raises w er_file mortality_file out ER D col :
  w_files w !! er_file = Some ER →
  w_files w !! mortality_file = Some D →
  NoDup (labels ER) → NoDup (labels D) →
  col ∈ tail (labels ER) →
  "Deaths-" +:+ col_year col ∉ labels D →
  ∃ key, calculate_excess_deaths er_file mortality_file out w
         = (inl (KeyError key), w).
Proof.
  intros HER HD HndE HndD Hcol Hmissing. unfold calculate_excess_deaths.
  rewrite (bind_step _ _ w w ER) by (unfold read_csv; by rewrite HER).
  rewrite (bind_step _ _ w w D) by (unfold read_csv; by rewrite HD).
  destruct (getitem ER "FID") as [e|fid] eqn:Hfid.
  - apply getitem_error in Hfid as [-> _]; [| done]. by exists "FID".
  - rewrite (bind_step _ _ w w fid) by done.
    assert (excess_deaths_rhs ER D col
            = inl (KeyError ("Deaths-" +:+ col_year col))) as Hrhs.
    { unfold excess_deaths_rhs.
      destruct (getitem_present ER col HndE (elem_of_tail _ _ Hcol)) as [er ->].
      simpl. by rewrite getitem_missing. }
    destruct (year_loop_raises (excess_deaths_rhs ER D)
                (λ c, "ED_" +:+ col_year c) (tail (labels ER))
                (setitem empty_frame "FID" fid) col _ Hcol Hrhs)
      as (c' & e' & _ & He' & Hrun).
    apply excess_deaths_rhs_error in He' as [key ->]; [| done..].
    exists key. apply bind_raise. unfold lift. f_equal. exact Hrun.
Qed.

End ExcessDeaths.

Section Benefits.

(** What a successful run of stage 4 read and what it wrote. *)
Lemma benefits_run w heatwave_file pop65_file pop_u65_file out w' :
  calculate_early_warning_benefits heatwave_file pop65_file pop_u65_file out w
  = (inr tt, w') →
  ∃ df_hw df65 df_u65 fid df_out,
    w_files w !! heatwave_file = Some df_hw ∧
    w_files w !! pop65_file = Some df65 ∧
    w_files w !! pop_u65_file = Some df_u65 ∧
    getitem df_hw "FID" = inr fid ∧
    fold_res (benefit_step df_hw df65 df_u65) (setitem empty_frame "FID" fid)
             (tail (labels df_hw)) = inr df_out ∧
    w_files w' = <[out := df_out]> (w_files w).
Proof.
  intros H. unfold calculate_early_warning_benefits in H. run_ok H.
  exists df, df0, df1, v, v0. by simplify_eq.
Qed.

Lemma benefit_rhs_ok df_hw df65 df_u65 col s :
  benefit_rhs df_hw df65 df_u65 col = inr s →
  ∃ p65 hw pu65,
    getitem df65 ("Pop65-" +:+ col_year col) = inr p65 ∧
    getitem df_hw col = inr hw ∧
    getitem df_u65 ("PopU65-" +:+ col_year col) = inr pu65 ∧
    s = benefit_series p65 pu65 hw.
Proof.
  unfold benefit_rhs. intros H.
  destruct (getitem df65 _) as [|p65]; [done |].
  destruct (getitem df_hw col) as [|hw]; [done |].
  destruct (getitem df_u65 _) as [|pu65]; [done |].
  simpl in H. exists p65, hw, pu65. by simplify_eq.
Qed.

Lemma benefit_rhs_error df_hw df65 df_u65 col e :
  NoDup (labels df_hw) → NoDup (labels df65) → NoDup (labels df_u65) →
  benefit_rhs df_hw df65 df_u65 col = inl e → ∃ key, e = KeyError key.
Proof.
  intros Hnd Hnd65 Hndu. unfold benefit_rhs.
  destruct (getitem df65 _) as [e1|p65] eqn:H65; simpl.
  { intros [= <-]. apply getitem_error in H65 as [-> _]; eauto. }
  destruct (getitem df_hw col) as [e2|hw] eqn:Hhw; simpl.
  { intros [= <-]. apply getitem_error in Hhw as [-> _]; eauto. }
  destruct (getitem df_u65 _) as [e3|pu65] eqn:Hu; simpl; [| done].
  intros [= <-]. apply getitem_error in Hu as [-> _]; eauto.
Qed.

(** The frame the loop of stage 4 ends with, when the heatwave table has
    rows or the population tables have none. *)
Lemma benefit_loop df_hw df65 df_u65 fid df_out :
  frame_wf df_hw → frame_wf df65 → frame_wf df_u65 →
  df_index df_hw ≠ 0%nat ∨ (df_index df65 = 0%nat ∧ df_index df_u65 = 0%nat) →
  getitem df_hw "FID" = inr fid →
  fold_res (benefit_step df_hw df65 df_u65) (setitem empty_frame "FID" fid)
           (tail (labels df_hw)) = inr df_out →
  df_index df_out = df_index df_hw
  ∧ getitem df_out "FID" = inr fid
  ∧ ∀ pre col post,
      tail (labels df_hw) = pre ++ col :: post →
      col_year col ∉ map col_year post →
      ∃ p65 hw pu65,
        getitem df65 ("Pop65-" +:+ col_year col) = inr p65 ∧
        getitem df_hw col = inr hw ∧
        getitem df_u65 ("PopU65-" +:+ col_year col) = inr pu65 ∧
        getitem df_out ("Benefit_" +:+ col_year col)
        = inr (reindex (df_index df_hw) (benefit_series p65 pu65 hw)).
Proof.
  intros Hwf Hwf65 Hwfu Hrows Hfid Hrun.
  pose proof (getitem_length _ _ _ Hwf Hfid) as Hlen.
  destruct (first_column "FID" fid) as (Hidx & Hwf0 & Hnd & Hsel).
  rewrite Hlen in Hidx.
  apply (year_loop_ok (benefit_rhs df_hw df65 df_u65)
           (λ c, "Benefit_" +:+ col_year c) (df_index df_hw)) in Hrun
    as ((Hidx' & _) & Hframe & Hvalue); [| done |].
  - split_and!; [done | |].
    + apply getitem_select. rewrite Hframe; [done |].
      intros Hin. apply list_elem_of_fmap in Hin as (c & Hc & _).
      by apply Benefit_not_FID in Hc.
    + intros pre col post Hsplit Hlast.
      destruct (Hvalue pre col post Hsplit) as (s & Hs & Hcol).
      { intros Hin. apply Hlast.
        apply list_elem_of_fmap in Hin as (c & Hc & Hin).
        apply (inj _) in Hc. rewrite Hc.
        by apply list_elem_of_fmap_2. }
      apply benefit_rhs_ok in Hs as (p65 & hw & pu65 & H65 & Hhw & Hu & ->).
      exists p65, hw, pu65. split_and!; [done.. |]. by apply getitem_select.
  - intros c s _ Hs.
    apply benefit_rhs_ok in Hs as (p65 & hw & pu65 & H65 & Hhw & Hu & ->).
    rewrite length_benefit_series.
    rewrite (getitem_length _ _ _ Hwf65 H65), (getitem_length _ _ _ Hwf Hhw),
      (getitem_length _ _ _ Hwfu Hu).
    lia.
Qed.

(** A year without one of its population columns stops stage 4 with a
    [KeyError] before anything is written. *)
Lemma benefits_raises w heatwave_file pop65_file pop_u65_file out
    df_hw df65 df_u65 col :
  w_files w !! heatwave_file = Some df_hw →
  w_files w !! pop65_file = Some df65 →
  w_files w !! pop_u65_file = Some df_u65 →
  NoDup (labels df_hw) → NoDup (labels df65) → NoDup (labels df_u65) →
  col ∈ tail (labels df_hw) →
  "Pop65-" +:+ col_year col ∉ labels df65
  ∨ "PopU65-" +:+ col_year col ∉ labels df_u65 →
  ∃ key, calculate_early_warning_benefits
           heatwave_file pop65_file pop_u65_file out w
         = (inl (KeyError key), w).
Proof.
  intros Hhw H65 Hu Hnd Hnd65 Hndu Hcol Hmissing.
  unfold calculate_early_warning_benefits.
  rewrite (bind_step _ _ w w df_hw) by (unfold read_csv; by rewrite Hhw).
  rewrite (bind_step _ _ w w df65) by (unfold read_csv; by rewrite H65).
  rewrite (bind_step _ _ w w df_u65) by (unfold read_csv; by rewrite Hu).
  destruct (getitem df_hw "FID") as [e|fid] eqn:Hfid.
  - apply getitem_error in Hfid as [-> _]; [| done]. by exists "FID".
  - rewrite (bind_step _ _ w w fid) by done.
    assert (∃ e, benefit_rhs df_hw df65 df_u65 col = inl e) as [e Hrhs].
    { unfold benefit_rhs.
      destruct (getitem df65 _) as [e1|p65] eqn:Hp65; simpl; [eauto |].
      destruct (getitem_present df_hw col Hnd (elem_of_tail _ _ Hcol))
        as [hw ->]. simpl.
      destruct Hmissing as [Hm | Hm].
      - apply getitem_label in Hp65. done.
      - rewrite getitem_missing by done. simpl. eauto. }
    destruct (year_loop_raises (benefit_rhs df_hw df65 df_u65)
                (λ c, "Benefit_" +:+ col_year c) (tail (labels df_hw))
                (setitem empty_frame "FID" fid) col _ Hcol Hrhs)
      as (c' & e' & _ & He' & Hrun).
    apply benefit_rhs_error in He' as [key ->]; [| done..].
    exists key. apply bind_raise. unfold lift. f_equal. exact Hrun.
Qed.

Lemma aligned_F64 (n m : nat) (x : float64) : aligned n m (F64 x) = F64 x.
Proof. unfold aligned. by destruct (n <? m)%nat. Qed.

(** A cell of the benefit, where the heatwave column has the row. *)
Lemma lookup_benefit_series (p65 pu65 hw : list cell) (i : nat) :
  i < length hw →
  benefit_series p65 pu65 hw !! i
  = Some (benefit_aligned (length p65) (length pu65) (length hw)
            (nth i p65 NaN) (nth i pu65 NaN) (nth i hw NaN)).
Proof.
  intros Hi. unfold benefit_series.
  assert (∀ (p : list cell) (k : cell),
    nth i (series_scalar cell_div
             (series_scalar cell_mul (series_op cell_mul p hw) k) million) NaN
    = cell_div (cell_mul (aligned_mul (length p) (length hw)
                            (nth i p NaN) (nth i hw NaN)) k) million)
    as Hside.
  { intros p k. apply nth_lookup_Some.
    rewrite !lookup_series_scalar, lookup_series_op by lia. simpl.
    by rewrite cell_mul_aligned. }
  rewrite lookup_series_op
    by (rewrite !length_series_scalar, !length_series_op; lia).
  rewrite !Hside. unfold benefit_aligned, cell_div. by rewrite !aligned_F64.
Qed.

End Benefits.

(* ================================================================== *)
(** * Stage 2 as a whole *)
(* ================================================================== *)

(** A successful run of stage 2 read the threshold table once and visited
    every leaf; printing touches no file. *)
Lemma heatwave_stage_visited future_dir threshold_file output_dir w w' :
  outputs_apart (w_dirs w) future_dir output_dir →
  count_heatwave_days future_dir threshold_file output_dir w = (inr tt, w') →
  ∃ threshold w1,
    w_files w !! threshold_file = Some threshold ∧
    visited future_dir output_dir threshold w
            (all_leaves (w_dirs w) future_dir) w1 ∧
    w_files w' = w_files w1.
Proof.
  intros Hapart H. unfold count_heatwave_days in H.
  apply bind_ok in H as (threshold & w0 & Hthr & H).
  apply read_csv_ok in Hthr as [-> Hthr].
  apply bind_ok in H as (scenarios & w0 & Hdir & H).
  pose proof Hdir as Hdir'. apply listdir_ok in Hdir' as [-> _].
  apply bind_ok in H as ([] & w1 & Hloop & H).
  exists threshold, w1. split; [done |]. split.
  - apply visited_all; [done |].
    by rewrite (bind_step _ _ w w scenarios Hdir).
  - unfold print in H. by simplify_eq.
Qed.

(** Comparing a value with itself, and a value with a larger one. *)
Lemma cell_ge_refl (x : cell) : isna x = false → cell_ge x x = true.
Proof.
  destruct x as [z | x]; simpl; intros Hx.
  - by apply Z.leb_le.
  - by apply f64_le_refl.
Qed.

Lemma cell_lt_not_ge (x t : cell) : cell_lt x t = true → cell_ge x t = false.
Proof.
  assert (∀ a b, f64_lt a b = true → f64_le b a = false) as Hfloat.
  { intros a b Hlt.
    destruct (f64_isnan a) eqn:Ha.
    { by destruct a. }
    destruct (f64_isnan b) eqn:Hb.
    { destruct b; try done; by rewrite f64_lt_nan_r in Hlt. }
    rewrite f64_lt_not_le in Hlt by done.
    by apply negb_true_iff in Hlt. }
  destruct x as [x | x], t as [t | t]; simpl; intros H;
    try by apply Hfloat.
  apply Z.ltb_lt in H. apply Z.leb_gt. lia.
Qed.

(* ================================================================== *)
(** * The claims *)
(* ================================================================== *)

(** Discharge a decidable side condition on a sample world. *)
Ltac decided := refine (bool_decide_unpack _ _); vm_compute; exact I.

(** C1. Every successful run of stage 1 leaves a single-column file whose
    header is [0.975], the name of the quantile Series. Asking that file
    for [Percent975] raises [KeyError], so no leaf of stage 2 can be
    processed against it. *)
Theorem baseline_output_not_percent975 w dir out w' :
  calculate_baseline_threshold dir out w = (inr tt, w') →
  ∃ thr,
    w_files w' !! out = Some thr ∧
    labels thr = ["0.975"] ∧
    getitem thr "Percent975" = inl (KeyError "Percent975") ∧
    ∀ data, ∃ e, heatwave_leaf thr data = inl e.
Proof.
  intros H. apply baseline_output_header in H as (thr & Hout & Hlabels).
  assert (getitem thr "Percent975" = inl (KeyError "Percent975")) as Hthr.
  { apply getitem_missing. rewrite Hlabels.
    intros Hin. by apply list_elem_of_singleton in Hin. }
  exists thr. split_and!; [done.. |].
  intros data. unfold heatwave_leaf.
  destruct (select _ "FID") as [|fid rest]; [eauto |].
  destruct (drop_column _ "FID") as [e|temps]; simpl; [eauto |].
  rewrite Hthr. simpl. eauto.
Qed.

Lemma baseline_output_not_percent975_witness :
  ∃ thr,
    w_files (snd (calculate_baseline_threshold "data/baseline/"
                    "outputs/baseline_percent975.csv" pipeline_world))
      !! "outputs/baseline_percent975.csv" = Some thr ∧
    labels thr = ["0.975"] ∧
    getitem thr "Percent975" = inl (KeyError "Percent975") ∧
    ∀ data, ∃ e, heatwave_leaf thr data = inl e.
Proof.
  apply (baseline_output_not_percent975 pipeline_world "data/baseline/").
  vm_compute. reflexivity.
Defined.

(** The example usage of the module, steps 1 and 2 in a row, stops in
    stage 2 at the lookup of [Percent975]. *)
Example chained_stages_raise :
  fst ((let! _ := calculate_baseline_threshold
                    "data/baseline/" "outputs/baseline_percent975.csv" in
        count_heatwave_days "data/future/" "outputs/baseline_percent975.csv"
                            "outputs/heatwave_days/") pipeline_world)
  = inl (KeyError "Percent975").
Proof. vm_compute. reflexivity. Qed.





(** The example usage: the rows (28, 30) and (22, 25) of an int64 table
    yield 29.95 and 24.925. *)
Example baseline_int_rows :
  w_files (snd (calculate_baseline_threshold "data/baseline/"
                  "outputs/baseline_percent975.csv" pipeline_world))
    !! "outputs/baseline_percent975.csv"
  = Some (mkDataFrame 2
            [("0.975", [F64 (f64_div (f64_of_int 2995) (f64_of_int 100));
                        F64 (f64_div (f64_of_int 24925) (f64_of_int 1000))])]).
Proof. vm_compute. reflexivity. Qed.

(** C4 (as amended). With the rows of the ER and mortality tables aligned
    by position, every ER column after the first that is the last one with
    its year suffix [y] has its product with the column [Deaths-y], cell by
    cell, under the name [ED_y] in the output. The product of two int64
    cells is their product as integers as long as it fits in an int64, and
    the float64 product of the two cells when one of them is a float64. *)
Theorem excess_deaths_product w er_file mortality_file out w' ER D :
  w_files w !! er_file = Some ER →
  w_files w !! mortality_file = Some D →
  frame_wf ER → frame_wf D → df_index D = df_index ER →
  calculate_excess_deaths er_file mortality_file out w = (inr tt, w') →
  ∃ df_out,
    w_files w' !! out = Some df_out ∧
    ∀ pre col post,
      tail (labels ER) = pre ++ col :: post →
      col_year col ∉ map col_year post →
      ∃ er d,
        getitem ER col = inr er ∧
        getitem D ("Deaths-" +:+ col_year col) = inr d ∧
        getitem df_out ("ED_" +:+ col_year col) = inr (zip_with cell_mul er d) ∧
        (∀ i x y,
           er !! i = Some (I64 x) → d !! i = Some (I64 y) →
           (- 2 ^ 63 ≤ x * y < 2 ^ 63)%Z →
           zip_with cell_mul er d !! i = Some (I64 (x * y))) ∧
        (∀ i a b,
           er !! i = Some a → d !! i = Some b →
           is_int a && is_int b = false →
           zip_with cell_mul er d !! i
           = Some (F64 (f64_mul (to_float a) (to_float b)))).
Proof.
  intros HER HD HwfE HwfD Hrows Hrun.
  apply excess_deaths_run in Hrun
    as (ER' & D' & fid & df_out & HER' & HD' & Hfid & Hloop & Hw).
  simplify_eq.
  exists df_out. split; [rewrite Hw; apply lookup_insert_eq |].
  destruct (excess_deaths_loop ER D fid df_out) as (_ & _ & Hcols);
    [done | done | lia | done | done |].
  intros pre col post Hsplit Hlast.
  destruct (Hcols pre col post Hsplit Hlast) as (er & d & Her & Hd & Hed).
  exists er, d. split_and!; [done | done | | |].
  - pose proof (getitem_length _ _ _ HwfE Her) as Hler.
    pose proof (getitem_length _ _ _ HwfD Hd) as Hld.
    rewrite Hed, series_op_aligned by lia. f_equal.
    rewrite <- (reindex_id (zip_with _ _ _)) at 2. f_equal.
    rewrite length_zip_with. lia.
  - intros i x y Hx Hy Hrange.
    rewrite lookup_zip_with, Hx, Hy. simpl.
    by rewrite wrap64_small.
  - intros i a b Ha Hb Hfloat.
    rewrite lookup_zip_with, Ha, Hb. simpl.
    by destruct a, b.
Qed.

(** For [ER = [2, 0]] and [Deaths-2050 = [10, 5]] the output holds
    [ED_2050 = [20, 0]]. *)
Lemma excess_deaths_product_witness :
  ∃ df_out,
    w_files (snd (calculate_excess_deaths "er.csv" "deaths.csv" "out.csv"
                    (deaths_world er_2050))) !! "out.csv" = Some df_out ∧
    getitem df_out "ED_2050" = inr (ints [20; 0]%Z).
Proof.
  destruct (excess_deaths_product (deaths_world er_2050)
              "er.csv" "deaths.csv" "out.csv"
              (snd (calculate_excess_deaths "er.csv" "deaths.csv" "out.csv"
                      (deaths_world er_2050)))
              er_2050 deaths_2050)
    as (df_out & Hout & Hcols);
    [reflexivity | reflexivity | decided | decided | reflexivity
    | vm_compute; reflexivity |].
  exists df_out. split; [exact Hout |].
  destruct (Hcols [] "ER_2050" [] eq_refl) as (er & d & Her & Hd & Hed & _);
    [decided |].
  injection Her as <-. injection Hd as <-.
  refine (eq_trans Hed _). vm_compute. reflexivity.
Defined.

(** With two scenarios of one year in the ER table, [ED_2050] holds the
    product of the second; the product of the first is gone. *)
Lemma excess_deaths_same_year_overwritten :
  ∃ w' df_out er d,
    calculate_excess_deaths "er.csv" "deaths.csv" "out.csv"
      (deaths_world er_two_scenarios) = (inr tt, w') ∧
    "ER_rcp45_2050" ∈ tail (labels er_two_scenarios) ∧
    df_index deaths_2050 = df_index er_two_scenarios ∧
    w_files w' !! "out.csv" = Some df_out ∧
    getitem er_two_scenarios "ER_rcp45_2050" = inr er ∧
    getitem deaths_2050 ("Deaths-" +:+ col_year "ER_rcp45_2050") = inr d ∧
    er = ints [2; 0]%Z ∧ d = ints [10; 5]%Z ∧
    getitem df_out ("ED_" +:+ col_year "ER_rcp45_2050") = inr (ints [30; 5]%Z) ∧
    getitem df_out ("ED_" +:+ col_year "ER_rcp45_2050")
    ≠ inr (zip_with cell_mul er d).
Proof.
  eexists _, _, _, _.
  split; [vm_compute; reflexivity |].
  split; [decided |].
  split; [reflexivity |].
  split; [vm_compute; reflexivity |].
  split; [vm_compute; reflexivity |].
  split; [vm_compute; reflexivity |].
  split; [vm_compute; reflexivity |].
  split; [vm_compute; reflexivity |].
  split; [vm_compute; reflexivity |].
  vm_compute. intros H. discriminate H.
Qed.

(** Two int64 cells whose product does not fit in an int64: the product
    written is the one that wrapped around. *)
Example excess_deaths_int64_wraps :
  ∃ df_out,
    w_files (snd (calculate_excess_deaths "er.csv" "deaths.csv" "out.csv"
                    (mkWorld ∅ {[ "er.csv" := er_large;
                                  "deaths.csv" := deaths_large ]} [])))
      !! "out.csv" = Some df_out ∧
    getitem df_out "ED_2050" = inr [I64 (-9223372036709301616)].
Proof. eexists. split; vm_compute; reflexivity. Qed.

(** C5 (as amended). With the rows of the heatwave and the two population
    tables aligned by position, every heatwave column after the first that
    is the last one with its year suffix [y] has its benefit under the name
    [Benefit_y] in the output, and each cell of it is
    [(Pop65-y * days) * 5 / 1e6 + (PopU65-y * days) * 0.0127 / 1e6] on the
    cells of its row, evaluated from left to right in the arithmetic of the
    cells. *)
Theorem benefit_formula_rows w heatwave_file pop65_file pop_u65_file out w'
    df_hw df65 df_u65 :
  w_files w !! heatwave_file = Some df_hw →
  w_files w !! pop65_file = Some df65 →
  w_files w !! pop_u65_file = Some df_u65 →
  frame_wf df_hw → frame_wf df65 → frame_wf df_u65 →
  df_index df65 = df_index df_hw → df_index df_u65 = df_index df_hw →
  calculate_early_warning_benefits heatwave_file pop65_file pop_u65_file out w
  = (inr tt, w') →
  ∃ df_out,
    w_files w' !! out = Some df_out ∧
    ∀ pre col post,
      tail (labels df_hw) = pre ++ col :: post →
      col_year col ∉ map col_year post →
      ∃ p65 hw pu65 benefit,
        getitem df65 ("Pop65-" +:+ col_year col) = inr p65 ∧
        getitem df_hw col = inr hw ∧
        getitem df_u65 ("PopU65-" +:+ col_year col) = inr pu65 ∧
        getitem df_out ("Benefit_" +:+ col_year col) = inr benefit ∧
        length benefit = df_index df_hw ∧
        ∀ i a b h,
          p65 !! i = Some a → pu65 !! i = Some b → hw !! i = Some h →
          benefit !! i = Some (benefit_left_to_right a b h).
Proof.
  intros Hhw H65 Hu Hwf Hwf65 Hwfu Hrows65 Hrowsu Hrun.
  apply benefits_run in Hrun
    as (hw' & p' & u' & fid & df_out & Hhw' & H65' & Hu' & Hfid & Hloop & Hw).
  simplify_eq.
  exists df_out. split; [rewrite Hw; apply lookup_insert_eq |].
  destruct (benefit_loop df_hw df65 df_u65 fid df_out) as (_ & _ & Hcols);
    [done | done | done | lia | done | done |].
  intros pre col post Hsplit Hlast.
  destruct (Hcols pre col post Hsplit Hlast)
    as (p65 & hw & pu65 & Hp & Hh & Hpu & Hben).
  pose proof (getitem_length _ _ _ Hwf65 Hp) as Hlp.
  pose proof (getitem_length _ _ _ Hwf Hh) as Hlh.
  pose proof (getitem_length _ _ _ Hwfu Hpu) as Hlu.
  assert (length (benefit_series p65 pu65 hw) = df_index df_hw) as Hlen
    by (rewrite length_benefit_series; lia).
  rewrite <- Hlen, reindex_id in Hben.
  exists p65, hw, pu65, (benefit_series p65 pu65 hw).
  split_and!; [done.. |].
  intros i a b h Ha Hb Hh'.
  rewrite lookup_benefit_series by (apply lookup_lt_Some in Hh'; lia).
  rewrite (nth_lookup_Some _ _ _ _ Ha), (nth_lookup_Some _ _ _ _ Hb),
    (nth_lookup_Some _ _ _ _ Hh').
  unfold benefit_aligned, benefit_left_to_right, aligned_mul.
  replace (length p65) with (length hw) by lia.
  replace (length pu65) with (length hw) by lia.
  by rewrite Nat.eqb_refl.
Qed.

(** One million people in each age band and 10 heatwave days: 50.127. *)
Lemma benefit_formula_rows_witness :
  ∃ df_out benefit,
    w_files (snd (calculate_early_warning_benefits
                    "hw.csv" "pop65.csv" "popu65.csv" "out.csv"
                    (benefit_world hw_2050))) !! "out.csv" = Some df_out ∧
    getitem df_out "Benefit_2050" = inr benefit ∧
    benefit !! 0%nat
    = Some (F64 (f64_div (f64_of_int 50127) (f64_of_int 1000))).
Proof.
  destruct (benefit_formula_rows (benefit_world hw_2050)
              "hw.csv" "pop65.csv" "popu65.csv" "out.csv"
              (snd (calculate_early_warning_benefits
                      "hw.csv" "pop65.csv" "popu65.csv" "out.csv"
                      (benefit_world hw_2050)))
              hw_2050 pop65_2050 pop_u65_2050)
    as (df_out & Hout & Hcols);
    [reflexivity | reflexivity | reflexivity | decided | decided | decided
    | reflexivity | reflexivity | vm_compute; reflexivity |].
  destruct (Hcols [] "HeatwaveDays_2050" [] eq_refl)
    as (p65 & hw & pu65 & benefit & Hp & Hh & Hpu & Hben & _ & Hrows);
    [decided |].
  exists df_out, benefit. split; [exact Hout |]. split; [exact Hben |].
  injection Hp as <-. injection Hh as <-. injection Hpu as <-.
  refine (eq_trans (Hrows 0%nat _ _ _ eq_refl eq_refl eq_refl) _).
  vm_compute. reflexivity.
Defined.

(** Two departures from the formula as the claim groups it. With two
    scenarios of one year in the heatwave table, [Benefit_2050] holds the
    benefit of the second, and that of the first is gone. And on a single
    column, for one million people in each age band and 10 heatwave days,
    the stage writes 50.127 where the rates formed first,
    [5 / 1e6] and [0.0127 / 1e6], give the next float64 above it. *)
Lemma benefit_overwritten_and_regrouped :
  (∃ w' df_out p65 hw pu65 benefit,
     calculate_early_warning_benefits "hw.csv" "pop65.csv" "popu65.csv"
       "out.csv" (benefit_world hw_two_scenarios) = (inr tt, w') ∧
     "rcp45_2050" ∈ tail (labels hw_two_scenarios) ∧
     w_files w' !! "out.csv" = Some df_out ∧
     getitem pop65_2050 ("Pop65-" +:+ col_year "rcp45_2050") = inr p65 ∧
     getitem hw_two_scenarios "rcp45_2050" = inr hw ∧
     getitem pop_u65_2050 ("PopU65-" +:+ col_year "rcp45_2050") = inr pu65 ∧
     getitem df_out ("Benefit_" +:+ col_year "rcp45_2050") = inr benefit ∧
     p65 !! 0%nat = Some (num 1000000) ∧
     pu65 !! 0%nat = Some (num 1000000) ∧
     hw !! 0%nat = Some (num 10) ∧
     benefit !! 0%nat
     = Some (F64 (f64_div (f64_of_int 100254) (f64_of_int 1000))) ∧
     benefit !! 0%nat
     ≠ Some (benefit_formula (num 1000000) (num 1000000) (num 10)) ∧
     benefit !! 0%nat
     ≠ Some (benefit_left_to_right (num 1000000) (num 1000000) (num 10)))
  ∧ (∃ w' df_out benefit,
       calculate_early_warning_benefits "hw.csv" "pop65.csv" "popu65.csv"
         "out.csv" (benefit_world hw_2050) = (inr tt, w') ∧
       w_files w' !! "out.csv" = Some df_out ∧
       getitem df_out "Benefit_2050" = inr benefit ∧
       benefit !! 0%nat
       = Some (F64 (f64_div (f64_of_int 50127) (f64_of_int 1000))) ∧
       benefit_formula (num 1000000) (num 1000000) (num 10)
       = F64 (S754_finite false 7054748078787528 (-47)) ∧
       benefit !! 0%nat
       ≠ Some (benefit_formula (num 1000000) (num 1000000) (num 10))).
Proof.
  split.
  - eexists _, _, _, _, _, _.
    split; [vm_compute; reflexivity |].
    split; [decided |].
    split; [vm_compute; reflexivity |].
    split; [vm_compute; reflexivity |].
    split; [vm_compute; reflexivity |].
    split; [vm_compute; reflexivity |].
    split; [vm_compute; reflexivity |].
    split; [vm_compute; reflexivity |].
    split; [vm_compute; reflexivity |].
    split; [vm_compute; reflexivity |].
    split; [vm_compute; reflexivity |].
    split; vm_compute; intros H; discriminate H.
  - eexists _, _, _.
    split; [vm_compute; reflexivity |].
    split; [vm_compute; reflexivity |].
    split; [vm_compute; reflexivity |].
    split; [vm_compute; reflexivity |].
    split; [vm_compute; reflexivity |].
    vm_compute. intros H. discriminate H.
Qed.

(** C6. A leaf file name [<anything><YYYY>.csv] yields the four
    characters [YYYY] before its extension as its year; a column name
    yields what follows its last underscore. *)
Theorem year_extraction (stem year prefix y : string) :
  String.length year = 4%nat →
  char_free "_" y →
  fname_year (stem +:+ year +:+ ".csv") = year
  ∧ col_year (prefix +:+ "_" +:+ y) = y.
Proof.
  intros Hyear Hy. split.
  - by apply fname_year_stem.
  - by apply col_year_suffix.
Qed.

Lemma year_extraction_witness :
  fname_year "scenarioA_modelB_2075.csv" = "2075"
  ∧ col_year "ER_rcp85_2100" = "2100".
Proof.
  apply (year_extraction "scenarioA_modelB_" "2075" "ER_rcp85" "2100");
    [reflexivity | by vm_compute].
Defined.

(** C7. When some year taken from a column of the primary table has no
    [Deaths-] column (stage 3), or no [Pop65-] or no [PopU65-] column
    (stage 4), the stage returns a [KeyError] to its caller, and the world
    is as it was: the stage stopped before writing. *)
Theorem missing_column_raises :
  (∀ w er_file mortality_file out ER D col,
     w_files w !! er_file = Some ER →
     w_files w !! mortality_file = Some D →
     NoDup (labels ER) → NoDup (labels D) →
     col ∈ tail (labels ER) →
     "Deaths-" +:+ col_year col ∉ labels D →
     ∃ key, calculate_excess_deaths er_file mortality_file out w
            = (inl (KeyError key), w))
  ∧ (∀ w heatwave_file pop65_file pop_u65_file out df_hw df65 df_u65 col,
       w_files w !! heatwave_file = Some df_hw →
       w_files w !! pop65_file = Some df65 →
       w_files w !! pop_u65_file = Some df_u65 →
       NoDup (labels df_hw) → NoDup (labels df65) → NoDup (labels df_u65) →
       col ∈ tail (labels df_hw) →
       "Pop65-" +:+ col_year col ∉ labels df65
       ∨ "PopU65-" +:+ col_year col ∉ labels df_u65 →
       ∃ key, calculate_early_warning_benefits
                heatwave_file pop65_file pop_u65_file out w
              = (inl (KeyError key), w)).
Proof.
  split.
  - intros. by eapply excess_deaths_raises.
  - intros. by eapply benefits_raises.
Qed.

Lemma missing_column_raises_witness :
  (∃ key, calculate_excess_deaths "er.csv" "deaths.csv" "out.csv"
            (deaths_world er_2060)
          = (inl (KeyError key), deaths_world er_2060))
  ∧ (∃ key, calculate_early_warning_benefits
              "hw.csv" "pop65.csv" "popu65.csv" "out.csv"
              (benefit_world hw_2060)
            = (inl (KeyError key), benefit_world hw_2060)).
Proof.
  split.
  - apply (proj1 missing_column_raises (deaths_world er_2060)
             "er.csv" "deaths.csv" "out.csv" er_2060 deaths_2050 "ER_2060");
      [reflexivity | reflexivity | decided..].
  - apply (proj2 missing_column_raises (benefit_world hw_2060)
             "hw.csv" "pop65.csv" "popu65.csv" "out.csv"
             hw_2060 pop65_2050 pop_u65_2050 "HeatwaveDays_2060");
      [reflexivity | reflexivity | reflexivity | decided..].
Defined.

(** C8. Run on an empty directory, stage 1 raises the error of a
    concatenation without objects, and the world is left as it was: no
    output file is written. *)
Theorem baseline_empty_directory w dir out :
  w_dirs w !! dir = Some [] →
  calculate_baseline_threshold dir out w
  = (inl (ValueError "No objects to concatenate"), w).
Proof. intros Hdir. by apply (baseline_no_csv w dir out []). Qed.

Lemma baseline_empty_directory_witness :
  calculate_baseline_threshold "base" "out.csv" empty_dir_world
  = (inl (ValueError "No objects to concatenate"), empty_dir_world).
Proof. apply baseline_empty_directory. reflexivity. Defined.




(** C10. In the output of a leaf every count is a natural number, at most
    the number of columns of the table other than [FID]. *)
Theorem heatwave_count_bounds threshold data out days :
  frame_wf data →
  heatwave_leaf threshold data = inr out →
  getitem out "HeatwaveDays" = inr days →
  ∀ i x, days !! i = Some x →
    ∃ k : nat,
      x = count_cell
            (length (filter (λ l, l ≠ "FID")
                            (labels (rename "Unnamed: 0" "FID" data)))) k ∧
      k ≤ length (filter (λ l, l ≠ "FID")
                         (labels (rename "Unnamed: 0" "FID" data))).
Proof.
  intros Hwf H Hdays i x Hx.
  apply heatwave_leaf_columns in H
    as (fid & thr & days' & _ & _ & _ & _ & Hdays' & Hlen & Hcount); [| done].
  rewrite Hdays in Hdays'. injection Hdays' as <-.
  pose proof (lookup_lt_Some _ _ _ Hx) as Hi. rewrite Hlen in Hi.
  rewrite (Hcount i Hi) in Hx. injection Hx as <-.
  rewrite <- temperature_columns_labels.
  eexists. split; [reflexivity |].
  unfold heatwave_days. apply length_filter.
Qed.

Lemma heatwave_count_bounds_witness :
  ∃ out days,
    heatwave_leaf threshold_3 leaf_2050 = inr out ∧
    getitem out "HeatwaveDays" = inr days ∧
    ∀ i x, days !! i = Some x →
      ∃ k : nat, x = I64 (Z.of_nat k) ∧ k ≤ 3.
Proof.
  assert (∃ out, heatwave_leaf threshold_3 leaf_2050 = inr out)
    as [out Hout] by (eexists; vm_compute; reflexivity).
  assert (∃ days, getitem out "HeatwaveDays" = inr days) as [days Hdays].
  { injection Hout as <-. eexists. vm_compute. reflexivity. }
  exists out, days. split; [exact Hout |]. split; [exact Hdays |].
  apply (heatwave_count_bounds threshold_3 leaf_2050 out days);
    [decided | exact Hout | exact Hdays].
Defined.

(* ================================================================== *)
(** * Further properties of the string helpers *)
(* ================================================================== *)

Section MoreStrings.

Lemma length_substring (s : string) : ∀ a m,
  String.length (String.substring a m s) = Nat.min m (String.length s - a).
Proof.
  induction s as [|c s IH]; intros a m.
  - destruct a, m; simpl; lia.
  - destruct a as [|a].
    + destruct m as [|m]; [done |]. simpl. rewrite IH. lia.
    + simpl. by rewrite IH.
Qed.

(** The year taken from a file name never has more than four characters,
    and it has fewer exactly when the name has fewer than eight: the slice
    [fname[-8:-4]] clamps instead of raising. *)
Theorem fname_year_length (fname : string) :
  String.length (fname_year fname)
  = Nat.min 4 (String.length fname - 4).
Proof.
  unfold fname_year, py_slice. rewrite length_substring.
  generalize (String.length fname). intros n.
  assert (py_bound n (-8) = n - 8) as -> by (unfold py_bound; simpl; lia).
  assert (py_bound n (-4) = n - 4) as -> by (unfold py_bound; simpl; lia).
  lia.
Qed.

Lemma py_split_single (c : ascii) (s w : string) :
  py_split c s = [w] → w = s ∧ char_free c s.
Proof.
  revert w. induction s as [|d s IH]; intros w H; simpl in H.
  - by simplify_eq.
  - destruct (Ascii.eqb_spec d c) as [-> | Hne].
    + pose proof (py_split_nonempty c s). by destruct (py_split c s).
    + destruct (py_split c s) as [|w' ws] eqn:Hs;
        [by apply py_split_nonempty in Hs |].
      injection H as <- ->.
      destruct (IH w' eq_refl) as [-> Hfree]. by split.
Qed.

(** The year taken from a column name holds no underscore, and it is
    either the whole name (a name without underscore) or what follows an
    underscore at the end of the name. *)
Theorem col_year_underscore_free (col : string) :
  char_free "_" (col_year col)
  ∧ (col_year col = col ∨ ∃ p, col = p +:+ "_" +:+ col_year col).
Proof.
  unfold col_year, py_last.
  induction col as [|d s IH]; [by split; [| left] |].
  destruct IH as [Hfree Hshape].
  cbn [py_split].
  pose proof (py_split_nonempty "_" s) as Hnil.
  destruct (py_split "_" s) as [|w ws] eqn:Hs; [done |].
  destruct (Ascii.eqb_spec d "_"%char) as [-> | Hne].
  - change (List.last (EmptyString :: w :: ws) EmptyString)
      with (List.last (w :: ws) EmptyString).
    split; [done |]. right.
    destruct Hshape as [Heq | [p Hp]].
    + exists EmptyString. by rewrite Heq.
    + exists (String "_" p). by rewrite Hp at 1.
  - destruct ws as [|w2 ws].
    + apply py_split_single in Hs as [-> Hs].
      split; [by split | by left].
    + change (List.last (String d w :: w2 :: ws) EmptyString)
        with (List.last (w :: w2 :: ws) EmptyString).
      split; [done |]. right.
      destruct Hshape as [Heq | [p Hp]].
      * rewrite (py_split_free "_" s) in Hs; [done |]. by rewrite <- Heq.
      * exists (String d p). by rewrite Hp at 1.
Qed.

End MoreStrings.

(* ================================================================== *)
(** * Further properties of stage 1 *)
(* ================================================================== *)

Section MoreBaseline.

(** ** The order of the listing *)

Lemma read_all_intro ps : ∀ w dfs,
  Forall2 (λ p df, w_files w !! p = Some df) ps dfs →
  map_m read_csv ps w = (inr dfs, w).
Proof.
  induction ps as [|p ps IH]; intros w dfs H.
  - by apply Forall2_nil_inv_l in H as ->.
  - apply Forall2_cons_inv_l in H as (df & dfs' & Hp & Hps & ->). simpl.
    rewrite (bind_step _ _ w w df) by (unfold read_csv; by rewrite Hp).
    by rewrite (bind_step _ _ w w dfs') by by apply IH.
Qed.

(** The quantile of a row does not depend on the order of its values. *)
Lemma linear_quantile_perm {A} (R : relation A)
    `{!RelDecision R, !Total R, !Transitive R, !AntiSymm (=) R}
    (interp : A → A → float64 → float64) (d : A) (q : float64)
    (xs ys : list A) :
  xs ≡ₚ ys → linear_quantile R interp d q xs = linear_quantile R interp d q ys.
Proof.
  intros Hp. unfold linear_quantile.
  assert (merge_sort R xs = merge_sort R ys) as ->.
  { apply (Sorted_unique R); [apply (Sorted_merge_sort R).. |].
    by rewrite !merge_sort_Permutation. }
  by rewrite (Permutation_length Hp).
Qed.

Lemma row_quantile_perm (q : float64) (r r' : list cell) :
  r ≡ₚ r' → row_quantile q r = row_quantile q r'.
Proof.
  intros Hp. unfold row_quantile.
  assert (filter (λ x, f64_isnan x = false) (map to_float r)
          ≡ₚ filter (λ x, f64_isnan x = false) (map to_float r')) as Hvals
    by (by apply filter_Permutation, fmap_Permutation).
  destruct (filter _ (map to_float r)) as [|x xs],
           (filter _ (map to_float r')) as [|y ys]; [done | | |].
  - by apply Permutation_nil in Hvals.
  - symmetry in Hvals. by apply Permutation_nil in Hvals.
  - f_equal. by apply (linear_quantile_perm f64_order).
Qed.

Lemma row_quantile_int_perm (q : float64) (r r' : list cell) :
  r ≡ₚ r' → row_quantile_int q r = row_quantile_int q r'.
Proof.
  intros Hp. unfold row_quantile_int. f_equal.
  apply (linear_quantile_perm Z.le). by apply omap_Permutation.
Qed.

Lemma forallb_perm {A} (f : A → bool) (l l' : list A) :
  l ≡ₚ l' → forallb f l = forallb f l'.
Proof.
  induction 1 as [|x l l' _ IH|x y l|l l' l'' _ IH1 _ IH2]; simpl.
  - done.
  - by rewrite IH.
  - by destruct (f x), (f y).
  - by rewrite IH1.
Qed.

Lemma frame_is_int_perm (df df' : DataFrame) :
  df_columns df ≡ₚ df_columns df' → frame_is_int df = frame_is_int df'.
Proof.
  intros Hp. unfold frame_is_int.
  pose proof (forallb_perm (λ c : string * list cell, forallb is_int (snd c))
                _ _ Hp) as Hall.
  destruct (df_columns df) as [|c cols], (df_columns df') as [|c' cols'];
    [done | | | done].
  - by apply Permutation_nil in Hp.
  - symmetry in Hp. by apply Permutation_nil in Hp.
Qed.

Lemma max_index_perm (dfs dfs' : list DataFrame) :
  dfs ≡ₚ dfs' →
  foldr (λ df, Nat.max (df_index df)) 0%nat dfs
  = foldr (λ df, Nat.max (df_index df)) 0%nat dfs'.
Proof.
  intros Hp. apply (foldr_permutation_proper (=)); [apply _ | | done].
  intros a1 a2 b. lia.
Qed.

(** The quantiles of the wide table do not depend on the order in which
    the frames are put side by side. *)
Lemma quantile_axis1_perm (q : float64) (dfs dfs' : list DataFrame) wide wide' :
  dfs ≡ₚ dfs' →
  concat_axis1 dfs = inr wide → concat_axis1 dfs' = inr wide' →
  quantile_axis1 q wide = quantile_axis1 q wide'.
Proof.
  intros Hp Hwide Hwide'. unfold quantile_axis1.
  assert (df_index wide' = df_index wide) as Hidx.
  { rewrite (concat_axis1_index _ _ Hwide), (concat_axis1_index _ _ Hwide').
    symmetry. by apply max_index_perm. }
  assert (df_columns wide ≡ₚ df_columns wide') as Hcols.
  { rewrite (concat_axis1_columns _ _ Hwide), (concat_axis1_columns _ _ Hwide'),
      Hidx.
    by apply Permutation_flat_map. }
  rewrite Hidx, (frame_is_int_perm wide wide' Hcols).
  apply map_ext. intros i.
  assert (row wide i ≡ₚ row wide' i) as Hrow
    by (unfold row; by apply fmap_Permutation).
  by rewrite (row_quantile_perm _ _ _ Hrow), (row_quantile_int_perm _ _ _ Hrow).
Qed.



(** ** Files that cannot be read *)

Lemma read_all_world ps : ∀ w r w',
  map_m read_csv ps w = (r, w') → w' = w.
Proof.
  induction ps as [|p ps IH]; intros w r w' H; simpl in H.
  - unfold m_ret in H. by simplify_eq.
  - unfold m_bind in H at 1. unfold read_csv in H at 1.
    destruct (w_files w !! p); [| by simplify_eq].
    unfold m_bind in H.
    destruct (map_m read_csv ps w) as [[e|dfs] w1] eqn:Hps;
      apply IH in Hps as ->; unfold m_ret in H; by simplify_eq.
Qed.

Lemma read_all_fails pre p post w :
  Forall (λ g, is_Some (w_files w !! g)) pre →
  w_files w !! p = None →
  map_m read_csv (pre ++ p :: post) w = (inl (OSError p), w).
Proof.
  intros Hpre Hp. induction Hpre as [|g pre [df Hg] _ IH]; simpl.
  - apply bind_raise. unfold read_csv. by rewrite Hp.
  - rewrite (bind_step _ _ w w df) by (unfold read_csv; by rewrite Hg).
    by apply bind_raise.
Qed.

(** Stage 1 raises [OSError] for a directory it cannot list, and for the
    first listed CSV file it cannot read; in both cases nothing is
    written. *)
Theorem baseline_unreadable :
  (∀ w dir out,
     w_dirs w !! dir = None →
     calculate_baseline_threshold dir out w = (inl (OSError dir), w))
  ∧ (∀ w dir out names pre f post,
       w_dirs w !! dir = Some names →
       filter (λ f, py_endswith f ".csv" = true) names = pre ++ f :: post →
       Forall (λ g, is_Some (w_files w !! path_join dir g)) pre →
       w_files w !! path_join dir f = None →
       calculate_baseline_threshold dir out w
       = (inl (OSError (path_join dir f)), w)).
Proof.
  split.
  - intros w dir out Hdir. unfold calculate_baseline_threshold.
    apply bind_raise. unfold listdir. by rewrite Hdir.
  - intros w dir out names pre f post Hdir Hcsv Hpre Hf.
    unfold calculate_baseline_threshold.
    rewrite (bind_step _ _ w w names) by (unfold listdir; by rewrite Hdir).
    apply bind_raise. rewrite Hcsv, map_app. simpl.
    apply read_all_fails; [| done].
    apply Forall_forall. intros p Hp.
    apply list_elem_of_fmap in Hp as (g & -> & Hg).
    by apply (proj1 (Forall_forall _ _) Hpre).
Qed.

Lemma baseline_unreadable_witness :
  calculate_baseline_threshold "nowhere" "out.csv" baseline_world
  = (inl (OSError "nowhere"), baseline_world)
  ∧ calculate_baseline_threshold "base" "out.csv" baseline_world_dangling
    = (inl (OSError "base/gone.csv"), baseline_world_dangling).
Proof.
  split.
  - apply (proj1 baseline_unreadable). reflexivity.
  - apply (proj2 baseline_unreadable baseline_world_dangling "base" "out.csv"
             ["a.csv"; "gone.csv"; "b.csv"] ["a.csv"] "gone.csv" ["b.csv"]);
      [reflexivity | reflexivity | decided | reflexivity].
Defined.

End MoreBaseline.

(* ================================================================== *)
(** * All or nothing *)
(* ================================================================== *)

(** Stages 1, 3 and 4 write once, at their end: a run that raises leaves
    the world exactly as it was, and a run that returns has replaced the
    content of the output file, left every other file as it was, and
    printed its notice. *)
Theorem stages_all_or_nothing :
  (∀ baseline_dir output_file w,
     match calculate_baseline_threshold baseline_dir output_file w with
     | (inl _, w') => w' = w
     | (inr _, w') =>
         (∃ percent975,
            w_files w' = <[output_file := series_frame quantile_name percent975]>
                           (w_files w))
         ∧ w_stdout w' = w_stdout w
             ++ ["Baseline 97.5th percentile saved to " +:+ output_file]
     end)
  ∧ (∀ er_file mortality_file output_file w,
       match calculate_excess_deaths er_file mortality_file output_file w with
       | (inl _, w') => w' = w
       | (inr _, w') =>
           (∃ df_out, w_files w' = <[output_file := df_out]> (w_files w))
           ∧ w_stdout w' = w_stdout w
               ++ ["Excess deaths saved to " +:+ output_file]
       end)
  ∧ (∀ heatwave_file pop65_file pop_u65_file output_file w,
       match calculate_early_warning_benefits
               heatwave_file pop65_file pop_u65_file output_file w with
       | (inl _, w') => w' = w
       | (inr _, w') =>
           (∃ df_out, w_files w' = <[output_file := df_out]> (w_files w))
           ∧ w_stdout w' = w_stdout w
               ++ ["Early warning benefits saved to " +:+ output_file]
       end).
Proof.
  split_and!.
  - intros dir out w. unfold calculate_baseline_threshold.
    unfold m_bind at 1. unfold listdir.
    destruct (w_dirs w !! dir) as [names|]; [| done].
    unfold m_bind at 1.
    destruct (map_m read_csv _ w) as [[e|dfs] w1] eqn:Hread;
      apply read_all_world in Hread as ->; [done |].
    unfold m_bind at 1, lift.
    destruct (concat_axis1 dfs) as [e|wide]; [done |].
    unfold m_bind, to_csv, print.
    destruct (parent_exists w out) as [e | []]; [done |].
    simpl. split; [by eexists | done].
  - intros er mort out w. unfold calculate_excess_deaths.
    unfold m_bind, read_csv, lift, to_csv, print.
    destruct (w_files w !! er) as [ER|]; [| done].
    destruct (w_files w !! mort) as [D|]; [| done].
    destruct (getitem ER "FID") as [e|fid]; [done |].
    destruct (fold_res _ _ _) as [e|df_out]; [done |].
    destruct (parent_exists w out) as [e | []]; [done |].
    simpl. split; [by eexists | done].
  - intros hwf p65 pu65 out w. unfold calculate_early_warning_benefits.
    unfold m_bind, read_csv, lift, to_csv, print.
    destruct (w_files w !! hwf) as [df_hw|]; [| done].
    destruct (w_files w !! p65) as [df65|]; [| done].
    destruct (w_files w !! pu65) as [df_u65|]; [| done].
    destruct (getitem df_hw "FID") as [e|fid]; [done |].
    destruct (fold_res _ _ _) as [e|df_out]; [done |].
    destruct (parent_exists w out) as [e | []]; [done |].
    simpl. split; [by eexists | done].
Qed.

(** A stage that returns has found the directory of its output file: none
    of the stages creates it, and the write raises [OSError] without it. *)
Theorem output_directory_needed :
  (∀ baseline_dir output_file w w',
     calculate_baseline_threshold baseline_dir output_file w = (inr tt, w') →
     parent_exists w output_file = inr tt)
  ∧ (∀ er_file mortality_file output_file w w',
       calculate_excess_deaths er_file mortality_file output_file w
       = (inr tt, w') →
       parent_exists w output_file = inr tt)
  ∧ (∀ heatwave_file pop65_file pop_u65_file output_file w w',
       calculate_early_warning_benefits
         heatwave_file pop65_file pop_u65_file output_file w = (inr tt, w') →
       parent_exists w output_file = inr tt)
  ∧ (∀ w p df d,
       path_parent p = Some d → d ≠ "" → w_dirs w !! d = None →
       to_csv p df w = (inl (OSError d), w)).
Proof.
  split_and!.
  - intros dir out w w' H. unfold calculate_baseline_threshold in H.
    by run_ok H.
  - intros er mort out w w' H. unfold calculate_excess_deaths in H.
    by run_ok H.
  - intros hwf p65 pu65 out w w' H.
    unfold calculate_early_warning_benefits in H. by run_ok H.
  - intros w p df d Hparent Hd Hnone. unfold to_csv, parent_exists.
    rewrite Hparent, Hnone.
    by destruct (String.eqb_spec d "").
Qed.

Lemma output_directory_needed_witness :
  parent_exists pipeline_world "outputs/baseline_percent975.csv" = inr tt
  ∧ to_csv "nowhere/out.csv" empty_frame pipeline_world
    = (inl (OSError "nowhere"), pipeline_world).
Proof.
  destruct output_directory_needed as (Hbaseline & _ & _ & Hwrite).
  split.
  - apply (Hbaseline "data/baseline/" "outputs/baseline_percent975.csv"
             pipeline_world
             (snd (calculate_baseline_threshold "data/baseline/"
                     "outputs/baseline_percent975.csv" pipeline_world))).
    vm_compute. reflexivity.
  - apply Hwrite; [reflexivity | discriminate | reflexivity].
Defined.

(* ================================================================== *)
(** * Further properties of stage 2 *)
(* ================================================================== *)

Section MoreHeatwave.

Lemma for_each_respects_in (R : World → World → Prop) {A}
    (body : A → M unit) (l : list A) :
  (∀ w, R w w) → (∀ w1 w2 w3, R w1 w2 → R w2 w3 → R w1 w3) →
  (∀ x, x ∈ l → ∀ w r w1, body x w = (r, w1) → R w w1) →
  ∀ w r w', for_each l body w = (r, w') → R w w'.
Proof.
  intros Hrefl Htrans. induction l as [|x l IH]; intros Hbody w r w' H;
    simpl in H.
  - unfold m_ret in H. simplify_eq. apply Hrefl.
  - eapply (bind_respects R Htrans) in H; [done | |].
    + apply Hbody, list_elem_of_here.
    + intros _. apply IH. intros y Hy. by apply Hbody, list_elem_of_further.
Qed.

Section Steps.

Variable dirs : gmap string (list string).
Variables future_dir output_dir : string.
Variable threshold : DataFrame.

Local Abbreviation R := (traversal_step dirs future_dir output_dir threshold).

Lemma traversal_step_refl w : R w w.
Proof. intros Hd. split; [done |]. intros p. by left. Qed.

Lemma traversal_step_trans w1 w2 w3 : R w1 w2 → R w2 w3 → R w1 w3.
Proof.
  intros H12 H23 Hd1.
  destruct (H12 Hd1) as [Hd2 Hf12]. destruct (H23 Hd2) as [Hd3 Hf23].
  split; [done |]. intros p.
  destruct (Hf23 p) as [Heq | Hout]; [| by right].
  destruct (Hf12 p) as [Heq' | (sc & m & f & data & out & Hl & Hp & Hleaf & Hw)].
  - left. by rewrite Heq.
  - right. exists sc, m, f, data, out. by rewrite Heq.
Qed.

(** A listing read on the way is a listing of [dirs]. *)
Lemma listdir_step (p : string) (k : list string → M unit) :
  (∀ names, dirs !! p = Some names →
            ∀ w r w', k names w = (r, w') → R w w') →
  ∀ w r w', m_bind (listdir p) k w = (r, w') → R w w'.
Proof.
  intros Hk w r w' H Hd. unfold m_bind, listdir in H.
  destruct (w_dirs w !! p) as [names|] eqn:Hp.
  - rewrite Hd in Hp. by apply (Hk names Hp w r w').
  - injection H as <- <-. by apply traversal_step_refl.
Qed.

End Steps.



(** ** Rows without a threshold, and higher thresholds *)

Lemma exceeds_NaN (rows height : nat) (x : cell) :
  ¬ exceeds rows height NaN x.
Proof.
  unfold exceeds. rewrite aligned_NaN.
  destruct (aligned rows height x); simpl; by rewrite ?f64_le_nan_l.
Qed.

(** A row of the leaf table whose threshold is missing (the threshold table
    is shorter, or its cell is empty) counts no heatwave day; the mismatch
    raises nothing. *)
Theorem heatwave_no_threshold_no_days threshold data out thr days i :
  frame_wf data →
  heatwave_leaf threshold data = inr out →
  getitem threshold "Percent975" = inr thr →
  getitem out "HeatwaveDays" = inr days →
  i < df_index data →
  nth i thr NaN = NaN →
  days !! i = Some (count_cell (length (temperature_columns data)) 0).
Proof.
  intros Hwf H Hthr Hdays Hi Hnan.
  apply heatwave_leaf_columns in H
    as (fid & thr' & days' & _ & Hthr' & Hidx & _ & Hdays' & _ & Hcount);
    [| done].
  rewrite Hthr in Hthr'. injection Hthr' as <-.
  rewrite Hdays in Hdays'. injection Hdays' as <-.
  rewrite Hcount by lia. do 2 f_equal.
  unfold heatwave_days. rewrite Hnan. clear Hcount.
  induction (temperature_columns data) as [|c cols IH]; [done |].
  rewrite filter_cons_False by apply exceeds_NaN. exact IH.
Qed.

Lemma heatwave_no_threshold_no_days_witness :
  ∃ out days,
    heatwave_leaf threshold_1 leaf_2050 = inr out ∧
    getitem out "HeatwaveDays" = inr days ∧
    days !! 1%nat = Some (I64 0).
Proof.
  assert (∃ out, heatwave_leaf threshold_1 leaf_2050 = inr out)
    as [out Hout] by (eexists; vm_compute; reflexivity).
  assert (∃ days, getitem out "HeatwaveDays" = inr days) as [days Hdays].
  { injection Hout as <-. eexists. vm_compute. reflexivity. }
  exists out, days. split; [exact Hout |]. split; [exact Hdays |].
  apply (heatwave_no_threshold_no_days threshold_1 leaf_2050 out
           (floats [30]%Z) days 1);
    [decided | exact Hout | reflexivity | exact Hdays | decided | reflexivity].
Defined.

Lemma length_filter_impl {A} (P Q : A → Prop)
    `{∀ x, Decision (P x)} `{∀ x, Decision (Q x)} (l : list A) :
  (∀ x, P x → Q x) → length (filter P l) ≤ length (filter Q l).
Proof.
  intros HPQ. induction l as [|x l IH]; [done |].
  destruct (decide (P x)) as [HP | HP].
  - rewrite !filter_cons_True by auto. simpl. lia.
  - rewrite (filter_cons_False P) by done.
    destruct (decide (Q x)).
    + rewrite filter_cons_True by done. simpl. lia.
    + by rewrite filter_cons_False by done.
Qed.

Lemma cell_ge_F64 (a : cell) (t : float64) :
  cell_ge a (F64 t) = f64_le t (to_float a).
Proof. by destruct a. Qed.

Lemma exceeds_antitone (rows h1 h2 : nat) (t1 t2 : float64) (x : cell) :
  f64_le t1 t2 = true →
  exceeds rows h2 (F64 t2) x → exceeds rows h1 (F64 t1) x.
Proof.
  intros Hle. unfold exceeds.
  rewrite !aligned_F64, !cell_ge_F64, !to_float_aligned.
  by apply f64_le_trans.
Qed.

(** Against the same leaf table, a row whose float64 threshold is higher
    in one threshold table counts at most as many heatwave days with it as
    with the lower one. *)
Theorem heatwave_count_antitone threshold1 threshold2 data out1 out2
    thr1 thr2 days1 days2 i (t1 t2 : float64) :
  frame_wf data →
  heatwave_leaf threshold1 data = inr out1 →
  heatwave_leaf threshold2 data = inr out2 →
  getitem threshold1 "Percent975" = inr thr1 →
  getitem threshold2 "Percent975" = inr thr2 →
  getitem out1 "HeatwaveDays" = inr days1 →
  getitem out2 "HeatwaveDays" = inr days2 →
  i < df_index data →
  thr1 !! i = Some (F64 t1) → thr2 !! i = Some (F64 t2) →
  f64_le t1 t2 = true →
  ∃ k1 k2 : nat,
    days1 !! i = Some (count_cell (length (temperature_columns data)) k1) ∧
    days2 !! i = Some (count_cell (length (temperature_columns data)) k2) ∧
    k2 ≤ k1.
Proof.
  intros Hwf H1 H2 Hthr1 Hthr2 Hdays1 Hdays2 Hi Ht1 Ht2 Hle.
  apply heatwave_leaf_columns in H1
    as (fid1 & thr1' & days1' & _ & Hthr1' & Hidx1 & _ & Hdays1' & _ & Hcount1);
    [| done].
  apply heatwave_leaf_columns in H2
    as (fid2 & thr2' & days2' & _ & Hthr2' & Hidx2 & _ & Hdays2' & _ & Hcount2);
    [| done].
  rewrite Hthr1 in Hthr1'. injection Hthr1' as <-.
  rewrite Hthr2 in Hthr2'. injection Hthr2' as <-.
  rewrite Hdays1 in Hdays1'. injection Hdays1' as <-.
  rewrite Hdays2 in Hdays2'. injection Hdays2' as <-.
  eexists _, _.
  split; [apply Hcount1; lia |]. split; [apply Hcount2; lia |].
  unfold heatwave_days.
  rewrite (nth_lookup_Some _ _ _ _ Ht1), (nth_lookup_Some _ _ _ _ Ht2).
  apply length_filter_impl. intros c. by apply exceeds_antitone.
Qed.

Lemma heatwave_count_antitone_witness :
  ∃ out1 out2 days1 days2 (k1 k2 : nat),
    heatwave_leaf threshold_low leaf_2050 = inr out1 ∧
    heatwave_leaf threshold_2 leaf_2050 = inr out2 ∧
    getitem out1 "HeatwaveDays" = inr days1 ∧
    getitem out2 "HeatwaveDays" = inr days2 ∧
    days1 !! 0%nat = Some (I64 (Z.of_nat k1)) ∧
    days2 !! 0%nat = Some (I64 (Z.of_nat k2)) ∧
    k2 ≤ k1.
Proof.
  assert (∃ out, heatwave_leaf threshold_low leaf_2050 = inr out)
    as [out1 Hout1] by (eexists; vm_compute; reflexivity).
  assert (∃ out, heatwave_leaf threshold_2 leaf_2050 = inr out)
    as [out2 Hout2] by (eexists; vm_compute; reflexivity).
  assert (∃ days, getitem out1 "HeatwaveDays" = inr days) as [days1 Hdays1].
  { injection Hout1 as <-. eexists. vm_compute. reflexivity. }
  assert (∃ days, getitem out2 "HeatwaveDays" = inr days) as [days2 Hdays2].
  { injection Hout2 as <-. eexists. vm_compute. reflexivity. }
  destruct (heatwave_count_antitone threshold_low threshold_2 leaf_2050
              out1 out2 (floats [29; 24]%Z) (floats [30; 25]%Z) days1 days2 0
              (f64_of_int 29) (f64_of_int 30))
    as (k1 & k2 & H1 & H2 & Hle);
    [decided | exact Hout1 | exact Hout2 | reflexivity | reflexivity
    | exact Hdays1 | exact Hdays2 | decided | reflexivity | reflexivity
    | by vm_compute |].
  by exists out1, out2, days1, days2, k1, k2.
Defined.

(** ** The identifier column *)

Lemma labels_rename old new df :
  labels (rename old new df)
  = map (λ l, if String.eqb l old then new else l) (labels df).
Proof. unfold labels, rename. simpl. by rewrite !map_map. Qed.

(** The loop body raises [KeyError('FID')] exactly for a table that has
    neither a column [FID] nor a column [Unnamed: 0] to be renamed,
    whatever the threshold table is. *)
Theorem heatwave_leaf_needs_fid threshold data :
  heatwave_leaf threshold data = inl (KeyError "FID")
  ↔ ("FID" ∉ labels data) ∧ ("Unnamed: 0" ∉ labels data).
Proof.
  assert ("FID" ∈ labels (rename "Unnamed: 0" "FID" data)
          ↔ ("FID" ∈ labels data ∨ "Unnamed: 0" ∈ labels data)) as Hlabels.
  { rewrite labels_rename, list_elem_of_fmap. split.
    - intros (l & Hl & Hin). revert Hl.
      destruct (String.eqb_spec l "Unnamed: 0") as [-> | _]; [by right |].
      intros ->. by left.
    - intros [Hin | Hin]; [by exists "FID" | by exists "Unnamed: 0"]. }
  unfold heatwave_leaf. split.
  - intros H.
    destruct (select (rename "Unnamed: 0" "FID" data) "FID")
      as [|fid rest] eqn:Hsel.
    + assert ("FID" ∉ labels (rename "Unnamed: 0" "FID" data)) as Hno.
      { intros Hin. by apply sel_present in Hin. }
      rewrite Hlabels in Hno.
      split; intros Hin; apply Hno; [by left | by right].
    + unfold drop_column in H. rewrite Hsel in H. simpl in H.
      unfold getitem in H.
      destruct (select threshold "Percent975") as [|thr [|thr2 more]];
        simpl in H; [done | | done].
      unfold frame_of_dict in H. by destruct (forallb _ _).
  - intros [Hfid Hun].
    unfold select.
    rewrite (sel_missing (df_columns (rename "Unnamed: 0" "FID" data)) "FID");
      [done |].
    fold (labels (rename "Unnamed: 0" "FID" data)).
    rewrite Hlabels. by intros [? | ?].
Qed.

End MoreHeatwave.

(* ================================================================== *)
(** * Further properties of stages 3 and 4 *)
(* ================================================================== *)

Section MoreExcessDeaths.

(** A successful run of stage 3 on an ER table whose columns after the
    first carry pairwise distinct years writes the columns [FID] and then
    one [ED_<year>] per such column, in the order of the ER table. The
    first column of the ER table is skipped by position, whatever its
    name. *)
Theorem excess_deaths_columns w er_file mortality_file out w' ER :
  w_files w !! er_file = Some ER →
  NoDup (map col_year (tail (labels ER))) →
  calculate_excess_deaths er_file mortality_file out w = (inr tt, w') →
  ∃ df_out,
    w_files w' !! out = Some df_out ∧
    labels df_out
    = "FID" :: map (λ col, "ED_" +:+ col_year col) (tail (labels ER)).
Proof.
  intros HER Hyears Hrun.
  apply excess_deaths_run in Hrun
    as (ER' & D & fid & df_out & HER' & HD & Hfid & Hloop & Hw).
  simplify_eq.
  exists df_out. split; [rewrite Hw; apply lookup_insert_eq |].
  apply (year_loop_labels (excess_deaths_rhs ER D)
           (λ c, "ED_" +:+ col_year c)) in Hloop.
  - by rewrite Hloop, labels_setitem.
  - rewrite <- (map_map col_year (String.append "ED_")).
    by apply (NoDup_fmap_2 _).
  - intros c _. rewrite labels_setitem. simpl. intros Hin.
    apply list_elem_of_singleton in Hin. symmetry in Hin.
    by apply ED_not_FID in Hin.
Qed.

Lemma excess_deaths_columns_witness :
  ∃ df_out,
    w_files (snd (calculate_excess_deaths "er.csv" "deaths.csv" "out.csv"
                    deaths_short_world)) !! "out.csv" = Some df_out ∧
    labels df_out = ["FID"; "ED_2050"; "ED_2060"].
Proof.
  apply (excess_deaths_columns deaths_short_world "er.csv" "deaths.csv"
           "out.csv" _ er_two_years);
    [reflexivity | decided | vm_compute; reflexivity].
Defined.

(** A successful run of stage 3 on an ER table with at least one row
    writes a table with the rows of the ER table, whatever the height of
    the mortality table: a cell of an [ED] column is the product of the
    cells at its position, taken as float64 when the heights differ, so it
    is NaN where the mortality table has no row, and the rows the
    mortality table has beyond the ER table are dropped. *)
Theorem excess_deaths_rows w er_file mortality_file out w' ER D :
  w_files w !! er_file = Some ER →
  w_files w !! mortality_file = Some D →
  frame_wf ER → frame_wf D → df_index ER ≠ 0%nat →
  calculate_excess_deaths er_file mortality_file out w = (inr tt, w') →
  ∃ df_out,
    w_files w' !! out = Some df_out ∧
    df_index df_out = df_index ER ∧
    ∀ pre col post,
      tail (labels ER) = pre ++ col :: post →
      col_year col ∉ map col_year post →
      ∃ er d ed,
        getitem ER col = inr er ∧
        getitem D ("Deaths-" +:+ col_year col) = inr d ∧
        getitem df_out ("ED_" +:+ col_year col) = inr ed ∧
        length ed = df_index ER ∧
        (∀ i, i < df_index ER →
              ed !! i = Some (aligned_mul (df_index ER) (df_index D)
                                          (nth i er NaN) (nth i d NaN))) ∧
        (∀ i, df_index D ≤ i → i < df_index ER → ed !! i = Some NaN).
Proof.
  intros HER HD HwfE HwfD Hrows Hrun.
  apply excess_deaths_run in Hrun
    as (ER' & D' & fid & df_out & HER' & HD' & Hfid & Hloop & Hw).
  simplify_eq.
  destruct (excess_deaths_loop ER D fid df_out) as (Hidx & _ & Hcols);
    [done | done | by left | done | done |].
  exists df_out. split_and!; [rewrite Hw; apply lookup_insert_eq | done |].
  intros pre col post Hsplit Hlast.
  destruct (Hcols pre col post Hsplit Hlast) as (er & d & Her & Hd & Hed).
  pose proof (getitem_length _ _ _ HwfE Her) as Hler.
  pose proof (getitem_length _ _ _ HwfD Hd) as Hld.
  assert (∀ i, i < df_index ER →
            reindex (df_index ER) (series_op cell_mul er d) !! i
            = Some (aligned_mul (df_index ER) (df_index D)
                                (nth i er NaN) (nth i d NaN))) as Hcells.
  { intros i Hi. rewrite <- Hler, <- Hld. apply lookup_product. lia. }
  exists er, d, (reindex (df_index ER) (series_op cell_mul er d)).
  split_and!; [done | done | done | apply length_reindex | done |].
  intros i Hge Hi. rewrite Hcells by done.
  rewrite (nth_overflow d) by lia. unfold aligned_mul.
  destruct (Nat.eqb_spec (df_index ER) (df_index D)); [lia |].
  simpl. by rewrite f64_mul_nan_r.
Qed.

Lemma excess_deaths_rows_witness :
  ∃ df_out ed,
    w_files (snd (calculate_excess_deaths "er.csv" "deaths.csv" "out.csv"
                    deaths_short_world)) !! "out.csv" = Some df_out ∧
    df_index df_out = 2%nat ∧
    getitem df_out "ED_2060" = inr ed ∧
    ed !! 0%nat = Some (flt 60) ∧
    ed !! 1%nat = Some NaN.
Proof.
  destruct (excess_deaths_rows deaths_short_world "er.csv" "deaths.csv"
              "out.csv"
              (snd (calculate_excess_deaths "er.csv" "deaths.csv" "out.csv"
                      deaths_short_world))
              er_two_years deaths_short)
    as (df_out & Hout & Hidx & Hcols);
    [reflexivity | reflexivity | decided | decided | decided
    | vm_compute; reflexivity |].
  destruct (Hcols ["ER_2050"] "ER_2060" [] eq_refl)
    as (er & d & ed & Her & Hd & Hed & _ & Hcells & Hnan); [decided |].
  exists df_out, ed. split_and!; [exact Hout | exact Hidx | exact Hed | |].
  - injection Her as <-. injection Hd as <-.
    refine (eq_trans (Hcells 0%nat _) _); [decided | vm_compute; reflexivity].
  - apply Hnan; [reflexivity | decided].
Defined.

End MoreExcessDeaths.

Section MoreBenefits.

(** A successful run of stage 4 on a heatwave table whose columns after
    the first carry pairwise distinct years writes the columns [FID] and
    then one [Benefit_<year>] per such column, in the order of the
    heatwave table. *)
Theorem benefit_columns w heatwave_file pop65_file pop_u65_file out w' df_hw :
  w_files w !! heatwave_file = Some df_hw →
  NoDup (map col_year (tail (labels df_hw))) →
  calculate_early_warning_benefits heatwave_file pop65_file pop_u65_file out w
  = (inr tt, w') →
  ∃ df_out,
    w_files w' !! out = Some df_out ∧
    labels df_out
    = "FID" :: map (λ col, "Benefit_" +:+ col_year col) (tail (labels df_hw)).
Proof.
  intros Hhw Hyears Hrun.
  apply benefits_run in Hrun
    as (hw' & df65 & df_u65 & fid & df_out & Hhw' & _ & _ & Hfid & Hloop & Hw).
  simplify_eq.
  exists df_out. split; [rewrite Hw; apply lookup_insert_eq |].
  apply (year_loop_labels (benefit_rhs df_hw df65 df_u65)
           (λ c, "Benefit_" +:+ col_year c)) in Hloop.
  - by rewrite Hloop, labels_setitem.
  - rewrite <- (map_map col_year (String.append "Benefit_")).
    by apply (NoDup_fmap_2 _).
  - intros c _. rewrite labels_setitem. simpl. intros Hin.
    apply list_elem_of_singleton in Hin. symmetry in Hin.
    by apply Benefit_not_FID in Hin.
Qed.

Lemma benefit_columns_witness :
  ∃ df_out,
    w_files (snd (calculate_early_warning_benefits
                    "hw.csv" "pop65.csv" "popu65.csv" "out.csv"
                    (benefit_world hw_two_cells))) !! "out.csv" = Some df_out ∧
    labels df_out = ["FID"; "Benefit_2050"].
Proof.
  apply (benefit_columns (benefit_world hw_two_cells)
           "hw.csv" "pop65.csv" "popu65.csv" "out.csv" _ hw_two_cells);
    [reflexivity | decided | vm_compute; reflexivity].
Defined.

(** A successful run of stage 4 on a heatwave table with at least one row
    writes a table with the rows of the heatwave table, whatever the
    heights of the population tables: a cell of a [Benefit] column is the
    benefit of the cells at its position, a population cell taken as
    float64 when its table has another height, and it is NaN where a
    population table has no row. *)
Theorem benefit_rows w heatwave_file pop65_file pop_u65_file out w'
    df_hw df65 df_u65 :
  w_files w !! heatwave_file = Some df_hw →
  w_files w !! pop65_file = Some df65 →
  w_files w !! pop_u65_file = Some df_u65 →
  frame_wf df_hw → frame_wf df65 → frame_wf df_u65 →
  df_index df_hw ≠ 0%nat →
  calculate_early_warning_benefits heatwave_file pop65_file pop_u65_file out w
  = (inr tt, w') →
  ∃ df_out,
    w_files w' !! out = Some df_out ∧
    df_index df_out = df_index df_hw ∧
    ∀ pre col post,
      tail (labels df_hw) = pre ++ col :: post →
      col_year col ∉ map col_year post →
      ∃ p65 hw pu65 benefit,
        getitem df65 ("Pop65-" +:+ col_year col) = inr p65 ∧
        getitem df_hw col = inr hw ∧
        getitem df_u65 ("PopU65-" +:+ col_year col) = inr pu65 ∧
        getitem df_out ("Benefit_" +:+ col_year col) = inr benefit ∧
        length benefit = df_index df_hw ∧
        (∀ i, i < df_index df_hw →
           benefit !! i
           = Some (benefit_aligned (df_index df65) (df_index df_u65)
                     (df_index df_hw)
                     (nth i p65 NaN) (nth i pu65 NaN) (nth i hw NaN))) ∧
        (∀ i, i < df_index df_hw →
           df_index df65 ≤ i ∨ df_index df_u65 ≤ i →
           benefit !! i = Some NaN).
Proof.
  intros Hhw H65 Hu Hwf Hwf65 Hwfu Hrows Hrun.
  apply benefits_run in Hrun
    as (hw' & p' & u' & fid & df_out & Hhw' & H65' & Hu' & Hfid & Hloop & Hw).
  simplify_eq.
  destruct (benefit_loop df_hw df65 df_u65 fid df_out) as (Hidx & _ & Hcols);
    [done | done | done | by left | done | done |].
  exists df_out. split_and!; [rewrite Hw; apply lookup_insert_eq | done |].
  intros pre col post Hsplit Hlast.
  destruct (Hcols pre col post Hsplit Hlast)
    as (p65 & hw & pu65 & Hp & Hh & Hpu & Hben).
  pose proof (getitem_length _ _ _ Hwf65 Hp) as Hlp.
  pose proof (getitem_length _ _ _ Hwf Hh) as Hlh.
  pose proof (getitem_length _ _ _ Hwfu Hpu) as Hlu.
  assert (∀ i, i < df_index df_hw →
            reindex (df_index df_hw) (benefit_series p65 pu65 hw) !! i
            = Some (benefit_aligned (df_index df65) (df_index df_u65)
                      (df_index df_hw)
                      (nth i p65 NaN) (nth i pu65 NaN) (nth i hw NaN)))
    as Hcells.
  { intros i Hi. rewrite lookup_reindex by done.
    rewrite length_benefit_series. unfold aligned at 1.
    destruct (Nat.ltb_spec
                (Nat.max (Nat.max (length p65) (length hw))
                         (Nat.max (length pu65) (length hw)))
                (df_index df_hw)); [lia |].
    f_equal. rewrite <- Hlp, <- Hlu, <- Hlh. apply nth_lookup_Some.
    apply lookup_benefit_series. lia. }
  exists p65, hw, pu65,
    (reindex (df_index df_hw) (benefit_series p65 pu65 hw)).
  split_and!; [done | done | done | done | apply length_reindex | done |].
  intros i Hi Hshort. rewrite Hcells by done.
  unfold benefit_aligned, aligned_mul.
  destruct Hshort as [Hshort | Hshort].
  - rewrite (nth_overflow p65) by lia.
    destruct (Nat.eqb_spec (df_index df65) (df_index df_hw)); [lia |].
    done.
  - rewrite (nth_overflow pu65) by lia.
    destruct (Nat.eqb_spec (df_index df_u65) (df_index df_hw)); [lia |].
    unfold cell_add, cell_div. simpl.
    by rewrite f64_add_nan_r.
Qed.

Lemma benefit_rows_witness :
  ∃ df_out benefit,
    w_files (snd (calculate_early_warning_benefits
                    "hw.csv" "pop65.csv" "popu65.csv" "out.csv"
                    (benefit_world hw_two_cells))) !! "out.csv" = Some df_out ∧
    df_index df_out = 2%nat ∧
    getitem df_out "Benefit_2050" = inr benefit ∧
    benefit !! 1%nat = Some NaN.
Proof.
  destruct (benefit_rows (benefit_world hw_two_cells)
              "hw.csv" "pop65.csv" "popu65.csv" "out.csv"
              (snd (calculate_early_warning_benefits
                      "hw.csv" "pop65.csv" "popu65.csv" "out.csv"
                      (benefit_world hw_two_cells)))
              hw_two_cells pop65_2050 pop_u65_2050)
    as (df_out & Hout & Hidx & Hcols);
    [reflexivity | reflexivity | reflexivity | decided | decided | decided
    | decided | vm_compute; reflexivity |].
  destruct (Hcols [] "HeatwaveDays_2050" [] eq_refl)
    as (p65 & hw & pu65 & benefit & Hp & Hh & Hpu & Hben & _ & _ & Hnan);
    [decided |].
  exists df_out, benefit. split_and!; [exact Hout | exact Hidx | exact Hben |].
  apply Hnan; [decided | left; decided].
Defined.

End MoreBenefits.
